(** * Heidelberg .vol / E2E / FDA to TIFF converters: a shallow embedding

    The development follows [scripts/convert_vol_to_tiff.py] and its two
    siblings [convert_e2e_to_tiff.py] and [convert_fda_to_tiff.py].

    Modelling conventions.
    - A file is the list of its bytes; a Python [bytes] object is a
      [list byte]; Python integers are [Z].
    - An exception is a value of [exn]; code that may raise returns a
      [result].
    - [struct.unpack] uses the native byte order; the model fixes a
      little-endian host, as on every platform the scripts are run on.
    - A float is a [fval]: NaN, an infinity, or a finite number held as an
      exact rational.  Decoding, comparisons, minimum and maximum are exact
      in IEEE arithmetic and so in the model; subtraction and division
      round, through the rounding operator [rnd] the arithmetic is
      parameterised by. *)

From Stdlib Require Import Reals Lra.
From Stdlib Require Import ZArith QArith Qround Lia Lqa List Bool String Ascii SpecFloat.
From Stdlib.Strings Require Import Byte.
From stdpp Require Import base list strings.
Import ListNotations.

#[local] Open Scope Z_scope.

(** ** Exceptions and results *)

Inductive exn : Type :=
| StructError     (* struct.error: wrong buffer size for the format *)
| ValueError      (* negative dimensions, negative read length, empty reduction *)
| OSError         (* seek to a negative offset, failing file-system call *)
| IndexError      (* index out of bounds *)
| OverflowError   (* a Python int that does not fit the C type *)
| ExternalError.  (* raised by a collaborator library *)

Inductive result (A : Type) : Type :=
| Ok (a : A)
| Raise (e : exn).
Arguments Ok {A} a.
Arguments Raise {A} e.

Definition bind {A B} (r : result A) (k : A -> result B) : result B :=
  match r with
  | Ok a => k a
  | Raise e => Raise e
  end.

Notation "x <- r ;; k" := (bind r (fun x => k))
  (at level 100, r at next level, right associativity).

Definition is_ok {A} (r : result A) : bool :=
  match r with Ok _ => true | Raise _ => false end.

(** ** Byte strings *)

Definition byte_val (b : byte) : Z := Z.of_N (Byte.to_N b).

(** Python's [s[lo:hi]] on a sequence, for arbitrary (also negative)
    indices: a negative index counts from the end, and both ends are
    clamped to the sequence. *)
Definition py_index (n i : Z) : Z :=
  if i <? 0 then Z.max (i + n) 0 else Z.min i n.

Definition py_slice {A} (lo hi : Z) (s : list A) : list A :=
  let n := Z.of_nat (length s) in
  let lo' := py_index n lo in
  let hi' := py_index n hi in
  firstn (Z.to_nat (hi' - lo')) (skipn (Z.to_nat lo') s).

(** The unsigned value of a little-endian byte string. *)
Fixpoint le_uint (bs : list byte) : Z :=
  match bs with
  | [] => 0
  | b :: bs' => Z.lor (byte_val b) (Z.shiftl (le_uint bs') 8)
  end.

(** Two's complement reading of a 32-bit word. *)
Definition to_int32 (u : Z) : Z :=
  if Z.testbit u 31 then u - 2 ^ 32 else u.

(** [struct.unpack('i', bs)[0]]: the buffer must hold exactly 4 bytes. *)
Definition unpack_i (bs : list byte) : result Z :=
  if (length bs =? 4)%nat then Ok (to_int32 (le_uint bs)) else Raise StructError.

(** ** The volume header (lines 24-35 of [read_vol_file]) *)

Record VolHeader : Type := mkVolHeader {
  SizeX : Z;
  NumBscans : Z;
  SizeZ : Z;
  SizeXSlo : Z;
  SizeYSlo : Z;
  BscanHdrSize : Z
}.

Definition SloImageSize (h : VolHeader) : Z := SizeXSlo h * SizeYSlo h.
Definition BsBlkSize (h : VolHeader) : Z := BscanHdrSize h + SizeX h * SizeZ h * 4.

(** [Header] is what [rawfile.read(2048)] returned: the fields are unpacked
    in source order, so the first short slice raises. *)
Definition parse_header (Header : list byte) : result VolHeader :=
  sx <- unpack_i (py_slice 12 16 Header) ;;
  nb <- unpack_i (py_slice 16 20 Header) ;;
  sz <- unpack_i (py_slice 20 24 Header) ;;
  sxs <- unpack_i (py_slice 48 52 Header) ;;
  sys <- unpack_i (py_slice 52 56 Header) ;;
  hs <- unpack_i (py_slice 100 104 Header) ;;
  Ok (mkVolHeader sx nb sz sxs sys hs).

(** [f.read(n)] at position [pos] of a file opened for binary reading:
    [n = -1] reads to the end, another negative [n] is refused, and a
    count that does not fit a C [ssize_t] overflows. *)
Definition file_read (file : list byte) (pos n : Z) : result (list byte) :=
  if n =? -1 then Ok (skipn (Z.to_nat pos) file)
  else if n <? 0 then Raise ValueError
  else if 2 ^ 63 <=? n then Raise OverflowError
  else Ok (firstn (Z.to_nat n) (skipn (Z.to_nat pos) file)).

(** [f.seek(off)]: a negative offset is refused, one past the end is not. *)
Definition file_seek (off : Z) : result Z :=
  if off <? 0 then Raise OSError else Ok off.

(** ** Floating-point values *)

(** What a NumPy float64 can hold.  A finite value is kept as the exact
    rational it denotes; the sign of a zero is not kept (no comparison of
    the program can see it). *)
Inductive fval : Type :=
| FNaN
| FInf (neg : bool)
| FFin (q : Q).

Definition f_zero : fval := FFin 0.
Definition f_one : fval := FFin 1.
Definition f_neg_one : fval := FFin (-1).

(** The literal [3.40e+38]: the binary64 number nearest to it is the
    integer 0x1.ff933c78cdfadp+127. *)
Definition sentinel_threshold : fval :=
  FFin (339999999999999996123846586046231871488 # 1).

Definition is_nan (v : fval) : bool :=
  match v with FNaN => true | _ => false end.

Definition is_finite (v : fval) : bool :=
  match v with FFin _ => true | _ => false end.

(** IEEE comparisons: every comparison with a NaN is false. *)
Definition f_leb (a b : fval) : bool :=
  match a, b with
  | FNaN, _ | _, FNaN => false
  | FInf true, _ => true
  | _, FInf false => true
  | FInf false, _ => false
  | _, FInf true => false
  | FFin x, FFin y => Qle_bool x y
  end.

Definition f_ltb (a b : fval) : bool :=
  match a, b with
  | FNaN, _ | _, FNaN => false
  | _, _ => negb (f_leb b a)
  end.

Definition f_geb (a b : fval) : bool := f_leb b a.
Definition f_gtb (a b : fval) : bool := f_ltb b a.

(** The value of a binary32 bit pattern [u] (0 <= u < 2^32): sign bit 31,
    biased exponent in bits 30..23, fraction in bits 22..0.  The widening
    to binary64 that [struct.unpack] performs is exact. *)
Definition f32_sign (u : Z) : bool := Z.testbit u 31.
Definition f32_exponent (u : Z) : Z := Z.land (Z.shiftr u 23) 255.
Definition f32_fraction (u : Z) : Z := Z.land u (2 ^ 23 - 1).

(** [m * 2^e] as a fraction in lowest terms. *)
Definition scale2 (m e : Z) : Q :=
  Qred (if 0 <=? e then (m * 2 ^ e) # 1 else m # (Z.to_pos (2 ^ (- e)))).

Definition decode_f32 (u : Z) : fval :=
  let s := f32_sign u in
  let e := f32_exponent u in
  let f := f32_fraction u in
  let sgn (m : Z) := if s then - m else m in
  if e =? 255 then (if f =? 0 then FInf s else FNaN)
  else if e =? 0 then FFin (scale2 (sgn f) (-149))
  else FFin (scale2 (sgn (f + 2 ^ 23)) (e - 150)).

(** Consecutive 4-byte groups of a payload. *)
Fixpoint chunks4 (bs : list byte) : list (list byte) :=
  match bs with
  | b0 :: b1 :: b2 :: b3 :: rest => [b0; b1; b2; b3] :: chunks4 rest
  | _ => []
  end.

(** [struct.unpack('f' * count, bs)]: the buffer must hold exactly
    [4 * count] bytes. *)
Definition unpack_f (count : nat) (bs : list byte) : result (list fval) :=
  if (length bs =? 4 * count)%nat
  then Ok (map (fun c => decode_f32 (le_uint c)) (chunks4 bs))
  else Raise StructError.

(** ** Arrays *)

(** A NumPy array: its shape and its elements in row-major (C) order. *)
Record ndarray (A : Type) : Type := mkArray {
  shape : list nat;
  data : list A
}.
Arguments mkArray {A} shape data.
Arguments shape {A} _.
Arguments data {A} _.

Definition ndim {A} (a : ndarray A) : nat := length (shape a).
Definition size_of (sh : list nat) : nat := fold_right Nat.mul 1%nat sh.
Definition well_shaped {A} (a : ndarray A) : Prop :=
  length (data a) = size_of (shape a).

(** [np.ones(dims) * -1.0]: a negative dimension is refused. *)
Definition np_full (dims : list Z) (v : fval) : result (ndarray fval) :=
  if forallb (fun d => 0 <=? d) dims
  then let sh := map Z.to_nat dims in Ok (mkArray sh (replicate (size_of sh) v))
  else Raise ValueError.

(** [a[i, ...] = row] on an array whose leading axis has rows of [w]
    elements: the elements [i*w .. i*w + w - 1] are overwritten. *)
Definition set_row {A} (w i : nat) (row : list A) (d : list A) : list A :=
  take (i * w) d ++ row ++ drop (i * w + w) d.

(** Arithmetic of NumPy's int64 scalars: results wrap around. *)
Definition wrap64 (z : Z) : Z := (z + 2 ^ 63) mod 2 ^ 64 - 2 ^ 63.

(** ** Reading the B-scans (lines 37-49 of [read_vol_file]) *)

Definition data_start (h : VolHeader) : Z := 2048 + SloImageSize h.

(** One turn of the loop, up to the reshape: seek to the record of slice
    [i], read one block, drop the record header and unpack the [w] floats
    of the payload.  [i] is a NumPy int64, so the offset is computed in
    wrapping arithmetic. *)
Definition read_bscan (file : list byte) (h : VolHeader) (w : nat) (i : Z)
  : result (list fval) :=
  let OffsetNow := wrap64 (data_start h + wrap64 (i * BsBlkSize h)) in
  pos <- file_seek OffsetNow ;;
  Bscan <- file_read file pos (BsBlkSize h) ;;
  unpack_f w (py_slice (BscanHdrSize h)
                       (SizeX h * SizeZ h * 4 + BscanHdrSize h) Bscan).

(** The loop over [np.arange(NumBscans)]: slice [i] becomes row [i] of the
    buffer [d], whose rows hold [w] elements. *)
Fixpoint fill_bscans (file : list byte) (h : VolHeader) (w : nat)
    (idx : list nat) (d : list fval) : result (list fval) :=
  match idx with
  | [] => Ok d
  | i :: rest =>
      row <- read_bscan file h w (Z.of_nat i) ;;
      fill_bscans file h w rest (set_row w i row d)
  end.

(** The assembler, lines 43-49, with the slice indices of its loop as an
    argument: the buffer [np.ones([NumBscans, SizeZ, SizeX]) * -1.0] and
    the loop that fills it, run over [idx]. *)
Definition assemble_upto (file : list byte) (h : VolHeader) (idx : list nat)
  : result (ndarray fval) :=
  BscanVol <- np_full [NumBscans h; SizeZ h; SizeX h] f_neg_one ;;
  let w := (Z.to_nat (SizeZ h) * Z.to_nat (SizeX h))%nat in
  d <- fill_bscans file h w idx (data BscanVol) ;;
  Ok (mkArray (shape BscanVol) d).

(** The source runs the loop over [np.arange(NumBscans)]. *)
Definition assemble (file : list byte) (h : VolHeader) : result (ndarray fval) :=
  assemble_upto file h (seq 0 (Z.to_nat (NumBscans h))).

(** The segmentation count of the first record, lines 37-41: read, and
    dropped. *)
Definition read_NumSeg (file : list byte) (h : VolHeader) : result Z :=
  pos <- file_seek (data_start h) ;;
  Bscan <- file_read file pos (BsBlkSize h) ;;
  let BscanHdr := py_slice 0 (BscanHdrSize h) Bscan in
  unpack_i (py_slice 48 52 BscanHdr).

(** Lines 24-49: everything [read_vol_file] does between opening and
    closing the file. *)
Definition read_bscans (file : list byte) : result (ndarray fval) :=
  Header <- file_read file 0 2048 ;;
  h <- parse_header Header ;;
  NumSeg <- read_NumSeg file h ;;
  assemble file h.

(** ** Sentinel cleanup and normalisation (lines 53-58) *)

(** [BscanVol[BscanVol >= 3.40e+38] = 0.0] *)
Definition clean_elem (v : fval) : fval :=
  if f_geb v sentinel_threshold then f_zero else v.

Definition sentinel_cleanup (d : list fval) : list fval := map clean_elem d.

(** [np.min] and [np.max]: a NaN anywhere is the result; an empty array
    has no minimum. *)
Definition f_min (a b : fval) : fval :=
  if is_nan a then a else if is_nan b then b else if f_leb a b then a else b.

Definition f_max (a b : fval) : fval :=
  if is_nan a then a else if is_nan b then b else if f_geb a b then a else b.

Definition np_min (d : list fval) : result fval :=
  match d with
  | [] => Raise ValueError
  | x :: xs => Ok (fold_left f_min xs x)
  end.

Definition np_max (d : list fval) : result fval :=
  match d with
  | [] => Raise ValueError
  | x :: xs => Ok (fold_left f_max xs x)
  end.

Section Arithmetic.

(** Rounding to binary64 of an exact result. *)
Variable rnd : Q -> Q.

Definition f_sub (a b : fval) : fval :=
  match a, b with
  | FNaN, _ | _, FNaN => FNaN
  | FInf s, FInf t => if Bool.eqb s t then FNaN else FInf s
  | FInf s, FFin _ => FInf s
  | FFin _, FInf t => FInf (negb t)
  | FFin x, FFin y => FFin (rnd (x - y))
  end.

Definition q_neg (q : Q) : bool := negb (Qle_bool 0 q).
Definition q_zero (q : Q) : bool := Qeq_bool q 0.

Definition f_div (a b : fval) : fval :=
  match a, b with
  | FNaN, _ | _, FNaN => FNaN
  | FInf _, FInf _ => FNaN
  | FInf s, FFin y => FInf (xorb s (q_neg y))
  | FFin _, FInf _ => FFin 0
  | FFin x, FFin y =>
      if q_zero y then (if q_zero x then FNaN else FInf (q_neg x))
      else FFin (rnd (x / y))
  end.

(** Lines 55-58. *)
Definition normalize (d : list fval) : result (list fval) :=
  min_val <- np_min d ;;
  max_val <- np_max d ;;
  if f_gtb max_val min_val
  then Ok (map (fun v => f_div (f_sub v min_val) (f_sub max_val min_val)) d)
  else Ok d.

(** Lines 53-60. *)
Definition postprocess (BscanVol : ndarray fval) : result (ndarray fval) :=
  d <- normalize (sentinel_cleanup (data BscanVol)) ;;
  Ok (mkArray (shape BscanVol) d).

Definition read_vol_file (file : list byte) : result (ndarray fval) :=
  BscanVol <- read_bscans file ;;
  postprocess BscanVol.

End Arithmetic.

(** ** Building test files *)

Definition byte_of (z : Z) : byte :=
  match Byte.of_N (Z.to_N (z mod 256)) with Some b => b | None => x00 end.

(** The four bytes of a 32-bit word, least significant first. *)
Definition le_bytes32 (u : Z) : list byte :=
  [byte_of u; byte_of (Z.shiftr u 8); byte_of (Z.shiftr u 16); byte_of (Z.shiftr u 24)].

Definition zeros (n : nat) : list byte := replicate n x00.

(** A 2048-byte header with the six fields at their offsets. *)
Definition mk_header (sx nb sz sxs sys hs : Z) : list byte :=
  zeros 12 ++ le_bytes32 sx ++ le_bytes32 nb ++ le_bytes32 sz ++ zeros 24
  ++ le_bytes32 sxs ++ le_bytes32 sys ++ zeros 44 ++ le_bytes32 hs ++ zeros 1944.

(** A slice record: a header of [hs] zero bytes and the given words. *)
Definition mk_record (hs : nat) (words : list Z) : list byte :=
  zeros hs ++ concat (map le_bytes32 words).


(** ** The header fields *)

Definition byte_at (s : list byte) (k : nat) : Z := byte_val (nth k s x00).

(** The little-endian signed 32-bit integer at byte offset [k], written
    arithmetically. *)
Definition int32_at (s : list byte) (k : nat) : Z :=
  let u := byte_at s k + 2 ^ 8 * byte_at s (k + 1)
           + 2 ^ 16 * byte_at s (k + 2) + 2 ^ 24 * byte_at s (k + 3) in
  if u <? 2 ^ 31 then u else u - 2 ^ 32.

Definition header_of (s : list byte) : VolHeader :=
  {| SizeX := int32_at s 12; NumBscans := int32_at s 16; SizeZ := int32_at s 20;
     SizeXSlo := int32_at s 48; SizeYSlo := int32_at s 52;
     BscanHdrSize := int32_at s 100 |}.

(** ** The layout of the slice records, written arithmetically *)

(** The little-endian unsigned 32-bit word at byte offset [k]. *)
Definition uint32_at (s : list byte) (k : nat) : Z :=
  byte_at s k + 2 ^ 8 * byte_at s (k + 1)
  + 2 ^ 16 * byte_at s (k + 2) + 2 ^ 24 * byte_at s (k + 3).

(** The binary32 float stored at byte offset [k]. *)
Definition f32_at (s : list byte) (k : nat) : fval := decode_f32 (uint32_at s k).

(** Byte offset of the record of slice [i], and of its payload. *)
Definition record_offset (h : VolHeader) (i : Z) : Z :=
  2048 + SizeXSlo h * SizeYSlo h + i * (BscanHdrSize h + SizeX h * SizeZ h * 4).

Definition payload_offset (h : VolHeader) (i : Z) : Z :=
  record_offset h i + BscanHdrSize h.

(** The floats of slice [i], in file order. *)
Definition slice_values (file : list byte) (h : VolHeader) (i : nat) : list fval :=
  map (fun j => f32_at file (Z.to_nat (payload_offset h (Z.of_nat i)) + 4 * j))
      (seq 0 (Z.to_nat (SizeZ h) * Z.to_nat (SizeX h))).

(** A file that holds the [NumBscans] records its header declares: the
    geometry is a geometry (no negative size, a data region that starts
    inside the file), every record lies within the file, and the file has
    a length a file system can give it. *)
Definition holds_records (file : list byte) (h : VolHeader) : Prop :=
  0 <= SizeX h /\ 0 <= SizeZ h /\ 0 <= NumBscans h /\ 0 <= BscanHdrSize h
  /\ 0 <= record_offset h 0
  /\ record_offset h (NumBscans h) <= Z.of_nat (length file)
  /\ Z.of_nat (length file) < 2 ^ 63.

(** The synthetic file of the specification's test: SizeX = 4, SizeZ = 3,
    two B-scans, no preview image, 64-byte record headers.  The payloads
    are binary32 bit patterns: 1.0, 2.0, 0.5, zeros and FLT_MAX in the
    first slice; -1.0, zeros and 3.0 in the second. *)
Definition example_header : VolHeader :=
  {| SizeX := 4; NumBscans := 2; SizeZ := 3; SizeXSlo := 0; SizeYSlo := 0;
     BscanHdrSize := 64 |}.

Definition example_file : list byte :=
  mk_header 4 2 3 0 0 64
  ++ mk_record 64 [0x3F800000; 0x40000000; 0x3F000000; 0; 0; 0; 0; 0; 0; 0; 0; 0x7F7FFFFF]
  ++ mk_record 64 [0xBF800000; 0; 0; 0; 0; 0; 0; 0; 0; 0; 0; 0x40400000].

(** ** Vocabulary of the statements about values *)

Definition threshold_q : Q := 339999999999999996123846586046231871488 # 1.

(** A value in the closed interval [0, 1]. *)
Definition in_unit (v : fval) : Prop :=
  match v with
  | FFin q => (0 <= q <= 1)%Q
  | _ => False
  end.

(** A finite value on the binary32 grid: an integer multiple of 2^-149,
    as every finite binary32 number is. *)
Definition tiny : Q := 1 # (2 ^ 149)%positive.

Definition binary32_value (v : fval) : Prop :=
  match v with
  | FFin q => exists k : Z, (q == k # (2 ^ 149)%positive)%Q
  | _ => False
  end.

(** What the statements need of rounding to nearest: it is monotone and
    leaves 0, 1 and 2^-149, which binary64 represents, as they are. *)
Definition rounding (rnd : Q -> Q) : Prop :=
  (forall a b, (a <= b)%Q -> (rnd a <= rnd b)%Q)
  /\ (rnd 0 == 0)%Q /\ (rnd 1 == 1)%Q /\ (rnd tiny == tiny)%Q.

(** A file whose payload holds minus infinity: one B-scan of 1 x 2 pixels,
    52-byte record header, pixels -inf and 0.0. *)
Definition neg_inf_file : list byte :=
  mk_header 2 1 1 0 0 52 ++ mk_record 52 [0xFF800000; 0].

(** Byte offset of the segmentation count: bytes 48..51 of the header of
    the first slice record. *)
Definition numseg_offset (h : VolHeader) : nat := Z.to_nat (record_offset h 0 + 48).

(** [f] with the bytes from offset [p] on overwritten by [w]. *)
Definition patch (f : list byte) (p : nat) (w : list byte) : list byte :=
  firstn p f ++ w ++ skipn (p + length w) f.

(** ** The contrast transform [log_volume] (the same in the three scripts) *)

Section LogVolume.

(** The element type of the array and NumPy's square root on it. *)
Context {A : Type}.
Variable np_sqrt : A -> A.

(** Every [c]-th element of [d], starting [k] elements from its head. *)
Fixpoint stride (c k : nat) (d : list A) : list A :=
  match d with
  | [] => []
  | x :: d' =>
      match k with
      | O => x :: stride c (c - 1) d'
      | S k' => stride c k' d'
      end
  end.

(** [a[..., 0]]: index 0 of the last axis, which must not be empty; in
    row-major order these are the elements 0, c, 2c, ... of [a], where
    [c] is the length of the last axis. *)
Definition channel0 (a : ndarray A) : result (ndarray A) :=
  match List.last (shape a) 0%nat with
  | O => Raise IndexError
  | c => Ok (mkArray (removelast (shape a)) (stride c 0 (data a)))
  end.

Definition log_volume (volume : ndarray A) : result (ndarray A) :=
  image_np <- (if (3 <? ndim volume)%nat then channel0 volume else Ok volume) ;;
  Ok (mkArray (shape image_np) (map (fun x => np_sqrt (np_sqrt x)) (data image_np))).

End LogVolume.

(** IEEE 754 square roots, for the float32 arrays the converters pass and
    for float64. *)
Definition sqrt_f32 : spec_float -> spec_float := SFsqrt 24 128.
Definition sqrt_f64 : spec_float -> spec_float := SFsqrt 53 1024.
Definition one_f32 : spec_float := S754_finite false 8388608 (-23).
Definition one_f64 : spec_float := S754_finite false 4503599627370496 (-52).

(** A 4-D array with an empty channel axis. *)
Definition empty_channels : ndarray R := mkArray [1; 1; 1; 0]%nat [].

(** ** Paths ([os.path], POSIX flavour) *)

Fixpoint startswith (pre s : string) : bool :=
  match pre with
  | EmptyString => true
  | String a pre' =>
      match s with
      | EmptyString => false
      | String b s' => Ascii.eqb a b && startswith pre' s'
      end
  end.

Definition endswith (suf s : string) : bool :=
  let n := String.length s in
  let m := String.length suf in
  if (m <=? n)%nat then String.eqb (String.substring (n - m) m s) suf else false.

(** [s.rfind(c)] for a one-character [c]: the last index of [c], or -1. *)
Fixpoint rfind_from (c : ascii) (s : string) (i acc : Z) : Z :=
  match s with
  | EmptyString => acc
  | String a s' => rfind_from c s' (i + 1) (if Ascii.eqb a c then i else acc)
  end.

Definition rfind (c : ascii) (s : string) : Z := rfind_from c s 0 (-1).

(** [os.path.join(a, b)] *)
Definition path_join (a b : string) : string :=
  if startswith "/"%string b then b
  else if String.eqb a EmptyString || endswith "/"%string a then a +:+ b
  else a +:+ "/"%string +:+ b.

(** Is some character of [s] different from [c]? *)
Fixpoint has_other (c : ascii) (s : string) : bool :=
  match s with
  | EmptyString => false
  | String a s' => negb (Ascii.eqb a c) || has_other c s'
  end.

(** [os.path.splitext(p)]: split at the last dot of the last component,
    unless that component has nothing but dots before it. *)
Definition splitext (p : string) : string * string :=
  let sepIndex := rfind "/"%char p in
  let dotIndex := rfind "."%char p in
  if (sepIndex <? dotIndex)
     && has_other "."%char (String.substring (Z.to_nat (sepIndex + 1))
                                        (Z.to_nat (dotIndex - (sepIndex + 1))) p)
  then (String.substring 0 (Z.to_nat dotIndex) p,
        String.substring (Z.to_nat dotIndex) (String.length p - Z.to_nat dotIndex) p)
  else (p, EmptyString).

(** [os.path.relpath(root, input_dir)] for a directory [root] that
    [os.walk(input_dir)] reached through the sub-directories [rel]: the
    names joined by a slash, or a single dot for [input_dir] itself. *)
Fixpoint join_names (names : list string) : string :=
  match names with
  | [] => EmptyString
  | [n] => n
  | n :: rest => n +:+ "/"%string +:+ join_names rest
  end.

Definition relpath (rel : list string) : string :=
  match rel with
  | [] => "."%string
  | _ => join_names rel
  end.

(** The [root] that the walk reports for that directory. *)
Definition walk_root (input_dir : string) (rel : list string) : string :=
  fold_left path_join rel input_dir.

(** ** The batch converters *)

(** What a run does to the outside world, in order. *)
Inductive event (F : Type) : Type :=
| EPrint (line : string)
| EOpen (path : string)                      (* open(path, 'rb') *)
| EClose (path : string)                     (* rawfile.close() *)
| ERelease (path : string)                   (* the file object is finalised *)
| EMakedirs (path : string)                  (* os.makedirs(path, exist_ok=True) *)
| EWrite (path : string) (a : ndarray F).    (* io.imsave / tiff.imwrite *)
Arguments EPrint {F} line.
Arguments EOpen {F} path.
Arguments EClose {F} path.
Arguments ERelease {F} path.
Arguments EMakedirs {F} path.
Arguments EWrite {F} path a.

(** The files a trace has opened and neither closed nor released, given
    the ones [acc] open when it starts. *)
Fixpoint open_handles {F} (tr : list (event F)) (acc : list string) : list string :=
  match tr with
  | [] => acc
  | EOpen p :: tr' => open_handles tr' (acc ++ [p])
  | EClose p :: tr' | ERelease p :: tr' =>
      open_handles tr' (List.filter (fun q => negb (String.eqb p q)) acc)
  | _ :: tr' => open_handles tr' acc
  end.

(** A trace in which the files are held one at a time: with the files
    [held] open when it starts, each [open] finds no file open, and none
    is open at the end. *)
Fixpoint one_at_a_time {F} (tr : list (event F)) (held : list string) : bool :=
  match tr with
  | [] => match held with [] => true | _ :: _ => false end
  | EOpen p :: tr' => match held with [] => one_at_a_time tr' [p] | _ :: _ => false end
  | EClose p :: tr' | ERelease p :: tr' =>
      one_at_a_time tr' (List.filter (fun q => negb (String.eqb p q)) held)
  | _ :: tr' => one_at_a_time tr' held
  end.

Definition written_paths {F} (tr : list (event F)) : list string :=
  omap (fun e => match e with EWrite p _ => Some p | _ => None end) tr.

(** The text [str(e)] that the handlers print: the model keeps the kind of
    the exception, whose name stands for the message. *)
Definition exn_name (e : exn) : string :=
  match e with
  | StructError => "struct.error"
  | ValueError => "ValueError"
  | OSError => "OSError"
  | IndexError => "IndexError"
  | OverflowError => "OverflowError"
  | ExternalError => "Exception"
  end%string.

(** A directory met by [os.walk]: the sub-directory names that lead to it
    from the input directory, and its files. *)
Definition walk_entry : Type := list string * list string.

(** The reader object of the external library: a slice count and an
    accessor. *)
Record reader (P : Type) : Type := mkReader {
  num_slices : nat;
  read_slice : nat -> result (ndarray P)
}.
Arguments mkReader {P} num_slices read_slice.
Arguments num_slices {P} _.
Arguments read_slice {P} _ _.

(** [np.stack(volume, axis=0)]: the arrays must be at least one and of one
    shape. *)
Definition np_stack {P} (volume : list (ndarray P)) : result (ndarray P) :=
  match volume with
  | [] => Raise ValueError
  | a :: rest =>
      if forallb (fun b => bool_decide (shape b = shape a)) rest
      then Ok (mkArray (length volume :: shape a) (concat (map data volume)))
      else Raise ValueError
  end.

(** The slices [0 .. n-1] of a reader, until one fails. *)
Fixpoint read_slices {P} (img : reader P) (idx : list nat) : result (list (ndarray P)) :=
  match idx with
  | [] => Ok []
  | i :: rest =>
      slice_data <- read_slice img i ;;
      volume <- read_slices img rest ;;
      Ok (slice_data :: volume)
  end.

Definition astype {A B} (f : A -> B) (a : ndarray A) : ndarray B :=
  mkArray (shape a) (map f (data a)).

Section Batch.

(** [P]: the pixels the external reader yields; [F]: float32. *)
Context {P F : Type}.
Variable rnd : Q -> Q.
Variable f64_to_f32 : fval -> F.       (* astype(np.float32) of a float64 *)
Variable px_to_f32 : P -> F.           (* astype(np.float32) of a pixel *)
Variable sqrt32 : F -> F.              (* np.sqrt on float32 *)

(** The outside world answers each call knowing what happened so far. *)
Variable fs_open : list (event F) -> string -> result (list byte).
Variable fs_makedirs : list (event F) -> string -> result unit.
Variable fs_write : list (event F) -> string -> ndarray F -> result unit.

(** Code that may raise and that acts on the world. *)
Definition M (A : Type) : Type := list (event F) -> result A * list (event F).

Definition ret {A} (a : A) : M A := fun tr => (Ok a, tr).
Definition lift {A} (r : result A) : M A := fun tr => (r, tr).
Definition emit (e : event F) : M unit := fun tr => (Ok tt, tr ++ [e]).
Definition bindM {A B} (m : M A) (k : A -> M B) : M B :=
  fun tr => match m tr with
            | (Ok a, tr') => k a tr'
            | (Raise e, tr') => (Raise e, tr')
            end.

(** [try: body except Exception as e: handler(e)].  The exception keeps
    alive, through its traceback, the frames it unwound, and with them the
    file objects they had opened and not closed.  When the handler ends,
    [e] is unbound (the end of the [except] clause), the traceback and its
    frames are dropped, and CPython's reference counting finalises those
    file objects, which closes their descriptors: the [ERelease] events. *)
Definition try_except (body : M unit) (handler : exn -> M unit) : M unit :=
  fun tr => match body tr with
            | (Ok _, tr') => (Ok tt, tr')
            | (Raise e, tr') =>
                let held := open_handles (drop (length tr) tr') [] in
                match handler e tr' with
                | (r, tr'') => (r, tr'' ++ map ERelease held)
                end
            end.

Fixpoint for_each {A} (body : A -> M unit) (l : list A) : M unit :=
  match l with
  | [] => ret tt
  | x :: rest => bindM (body x) (fun _ => for_each body rest)
  end.

Definition makedirs (p : string) : M unit :=
  fun tr => match fs_makedirs tr p with
            | Ok _ => (Ok tt, tr ++ [EMakedirs p])
            | Raise e => (Raise e, tr)
            end.

Definition imsave (p : string) (a : ndarray F) : M unit :=
  fun tr => match fs_write tr p a with
            | Ok _ => (Ok tt, tr ++ [EWrite p a])
            | Raise e => (Raise e, tr)
            end.

(** [read_vol_file] with its file handle: opened at line 23, closed at
    line 51, which an exception raised in between does not reach: the file
    object then stays with the frame that the exception unwinds, and is
    finalised with that frame when the exception is dropped, see
    [try_except]. *)
Definition read_vol_file_io (raw_file : string) : M (ndarray fval) :=
  fun tr =>
    match fs_open tr raw_file with
    | Raise e => (Raise e, tr)
    | Ok bytes =>
        let tr1 := tr ++ [EOpen raw_file] in
        match read_bscans bytes with
        | Raise e => (Raise e, tr1)
        | Ok BscanVol => (postprocess rnd BscanVol, tr1 ++ [EClose raw_file])
        end
    end.

(** The body of the loop of [process_vol_files] for one [.vol] file. *)
Definition convert_vol_file (input_dir output_dir : string) (rel : list string)
    (file : string) : M unit :=
  bindM (emit (EPrint ("Converting: " +:+ file)%string)) (fun _ =>
  let vol_filepath := path_join (walk_root input_dir rel) file in
  try_except
    (bindM (read_vol_file_io vol_filepath) (fun bscan_vol =>
     let relative_path := relpath rel in
     let output_subdir := path_join output_dir relative_path in
     bindM (makedirs output_subdir) (fun _ =>
     let base_filename := fst (splitext file) in
     let tiff_filepath := path_join output_subdir (base_filename +:+ ".tiff")%string in
     let volume_data := astype f64_to_f32 bscan_vol in
     bindM (lift (log_volume sqrt32 volume_data)) (fun volume_data =>
     bindM (imsave tiff_filepath volume_data) (fun _ =>
     emit (EPrint ("Saved: " +:+ tiff_filepath)%string))))))
    (fun e =>
       emit (EPrint ("Error processing " +:+ vol_filepath +:+ ": "
                     +:+ exn_name e)%string))).

Definition process_vol_files (input_dir output_dir : string)
    (walk : list walk_entry) : M unit :=
  for_each (fun entry : walk_entry =>
    let (rel, files) := entry in
    for_each (fun file =>
      if endswith ".vol" file
      then convert_vol_file input_dir output_dir rel file
      else ret tt) files) walk.

(** The two reader-based converters differ in the extension they look
    for and in the reader class they call. *)
Section Reader.

Variable ext : string.
Variable lib_open : list (event F) -> string -> result (reader P).

Definition convert_reader_file (input_dir output_dir : string)
    (rel : list string) (file : string) : M unit :=
  let E2E_filepath := path_join (walk_root input_dir rel) file in
  bindM (fun tr => (lib_open tr E2E_filepath, tr)) (fun img =>
  try_except
    (bindM (lift (read_slices img (seq 0 (num_slices img)))) (fun volume =>
     bindM (lift (np_stack volume)) (fun volume =>
     let relative_path := relpath rel in
     let output_subdir := path_join output_dir relative_path in
     bindM (makedirs output_subdir) (fun _ =>
     let folder_name := fst (splitext file) in
     let e2e_folder := path_join output_subdir folder_name in
     bindM (makedirs e2e_folder) (fun _ =>
     let volume := astype px_to_f32 volume in
     bindM (lift (log_volume sqrt32 volume)) (fun volume =>
     let tiff_filepath := path_join e2e_folder (folder_name +:+ ".tiff")%string in
     bindM (emit (EPrint ("Saving OCT volume to " +:+ tiff_filepath)%string)) (fun _ =>
     imsave tiff_filepath volume)))))))
    (fun e =>
       emit (EPrint ("Error processing " +:+ E2E_filepath +:+ ": "
                     +:+ exn_name e)%string))).

Definition process_reader_files (input_dir output_dir : string)
    (walk : list walk_entry) : M unit :=
  for_each (fun entry : walk_entry =>
    let (rel, files) := entry in
    for_each (fun file =>
      if endswith ext file
      then convert_reader_file input_dir output_dir rel file
      else ret tt) files) walk.

End Reader.

Definition process_e2e_files := process_reader_files ".e2e"%string.
Definition process_fda_files := process_reader_files ".fda"%string.

End Batch.

(** Does the character [c] occur in [s]? *)
Fixpoint contains (c : ascii) (s : string) : bool :=
  match s with
  | EmptyString => false
  | String a s' => Ascii.eqb a c || contains c s'
  end.

(** A file name [stem.ext] as a directory entry has it: no slash, an
    extension without a dot, and a stem that is not made of dots only. *)
Definition plain_name (stem ext : string) : Prop :=
  contains "/"%char stem = false /\ has_other "."%char stem = true
  /\ contains "/"%char ext = false /\ contains "."%char ext = false.

(** ** A small world to run the converters in *)

(** Float32 contents are not looked at by the statements about paths and
    failures: in the runs below an element is a [unit]. *)
Definition demo_files : list (string * list byte) :=
  [("in/bad.vol"%string, mk_header 4 2 3 0 0 64);      (* header only: truncated *)
   ("in/good.vol"%string, example_file);
   ("in/a/b/scan.vol"%string, example_file)].

Definition demo_open (tr : list (event unit)) (p : string) : result (list byte) :=
  match find (fun e => String.eqb (fst e) p) demo_files with
  | Some e => Ok (snd e)
  | None => Raise OSError
  end.

Definition demo_makedirs (tr : list (event unit)) (p : string) : result unit := Ok tt.

Definition demo_write (tr : list (event unit)) (p : string) (a : ndarray unit)
  : result unit := Ok tt.

(** A reader library whose constructor raises on files named [bad.*] and
    yields two 1 x 2 slices for any other file. *)
Definition demo_reader : reader nat :=
  mkReader 2 (fun i => Ok (mkArray [1; 2]%nat [i; i]%nat)).

Definition demo_lib_open (tr : list (event unit)) (p : string) : result (reader nat) :=
  if startswith "in/bad."%string p then Raise ExternalError else Ok demo_reader.

Definition erase {A} (x : A) : unit := tt.

Definition demo_process_vol_files :=
  process_vol_files (fun q : Q => q) erase (fun u : unit => u)
    demo_open demo_makedirs demo_write.

Definition demo_process_e2e_files :=
  process_e2e_files (P := nat) erase (fun u : unit => u)
    demo_makedirs demo_write demo_lib_open.

Definition demo_process_fda_files :=
  process_fda_files (P := nat) erase (fun u : unit => u)
    demo_makedirs demo_write demo_lib_open.

(** Two more files for the edge cases: one whose header declares no
    B-scan, and one cut after its first slice record. *)
Definition no_bscan_file : list byte :=
  mk_header 4 0 3 0 0 64 ++ mk_record 64 [0; 0; 0; 0; 0; 0; 0; 0; 0; 0; 0; 0].

Definition truncated_file : list byte :=
  mk_header 4 2 3 0 0 64
  ++ mk_record 64 [0x3F800000; 0x40000000; 0x3F000000; 0; 0; 0; 0; 0; 0; 0; 0; 0x7F7FFFFF].

(** Every element the assembler can produce: the fill or a decoded word. *)
Definition decoded (v : fval) : Prop := v = f_neg_one \/ exists u, v = decode_f32 u.

(** The lines [Error processing <path>: <message>] of a trace. *)
Definition is_report {F} (e : event F) : bool :=
  match e with
  | EPrint line => startswith "Error processing "%string line
  | _ => false
  end.

Definition count_reports {F} (tr : list (event F)) : nat :=
  length (List.filter is_report tr).

(** The files of a walk that a converter looking for [ext] picks up. *)
Definition matching_files (ext : string) (walk : list walk_entry) : list string :=
  concat (map (fun entry : walk_entry => List.filter (endswith ext) (snd entry)) walk).

(** A reader library for the runs about readers that always open: the
    second one offers no slice. *)
Definition good_lib_open (tr : list (event unit)) (p : string) : result (reader nat) :=
  Ok demo_reader.

Definition empty_lib_open (tr : list (event unit)) (p : string) : result (reader nat) :=
  Ok (mkReader 0 (fun i => Raise IndexError)).
(** * Properties *)

(** ** Bytes and words *)

Lemma byte_val_range b : 0 <= byte_val b < 256.
Proof.
  unfold byte_val. pose proof (Byte.to_N_bounded b) as H. lia.
Qed.

Lemma small_testbit_high b n : 0 <= b < 256 -> 8 <= n -> Z.testbit b n = false.
Proof.
  intros Hb Hn. apply Z.bits_above_log2; [lia|].
  destruct (Z.eq_dec b 0) as [->|]; [simpl; lia|].
  apply Z.log2_lt_pow2; [lia|].
  apply Z.lt_le_trans with (2 ^ 8); [lia|]. apply Z.pow_le_mono_r; lia.
Qed.

Lemma land_shift8 b x : 0 <= b < 256 -> Z.land b (Z.shiftl x 8) = 0.
Proof.
  intros Hb. apply Z.bits_inj'. intros n Hn.
  rewrite Z.land_spec, Z.bits_0.
  destruct (Z.lt_ge_cases n 8).
  - rewrite Z.shiftl_spec_low by lia. apply andb_false_r.
  - rewrite small_testbit_high by lia. reflexivity.
Qed.

Lemma lor_shift8 b x : 0 <= b < 256 -> Z.lor b (Z.shiftl x 8) = b + 256 * x.
Proof.
  intros Hb.
  rewrite <- Z.lxor_lor, <- Z.add_nocarry_lxor by (apply land_shift8; lia).
  rewrite Z.shiftl_mul_pow2 by lia. lia.
Qed.

Lemma le_uint_cons b bs : le_uint (b :: bs) = byte_val b + 256 * le_uint bs.
Proof. simpl. apply lor_shift8, byte_val_range. Qed.

Lemma le_uint_range bs : 0 <= le_uint bs < 256 ^ Z.of_nat (length bs).
Proof.
  induction bs as [|b bs IH].
  - simpl. lia.
  - rewrite le_uint_cons. pose proof (byte_val_range b).
    replace (Z.of_nat (length (b :: bs))) with (Z.succ (Z.of_nat (length bs)))
      by (simpl length; lia).
    rewrite Z.pow_succ_r by lia. lia.
Qed.

Lemma testbit31 u : 0 <= u < 2 ^ 32 -> Z.testbit u 31 = (2 ^ 31 <=? u).
Proof.
  intros Hu. destruct (Z.leb_spec (2 ^ 31) u) as [H|H].
  - apply Z.testbit_true; [lia|].
    assert (u / 2 ^ 31 = 1) as ->; [|reflexivity].
    symmetry. apply Z.div_unique with (u - 2 ^ 31); lia.
  - apply Z.bits_above_log2; [lia|].
    destruct (Z.eq_dec u 0) as [->|]; [simpl; lia|].
    apply Z.log2_lt_pow2; lia.
Qed.

(** ** Slices *)

Lemma py_slice_length {A} lo hi (s : list A) :
  0 <= lo <= hi ->
  length (py_slice lo hi s)
  = Z.to_nat (Z.min hi (Z.of_nat (length s)) - Z.min lo (Z.of_nat (length s))).
Proof.
  intros H. unfold py_slice, py_index.
  destruct (Z.ltb_spec lo 0); [lia|]. destruct (Z.ltb_spec hi 0); [lia|].
  rewrite length_firstn, length_skipn. lia.
Qed.

Lemma py_slice_inside {A} lo hi (s : list A) :
  0 <= lo <= hi -> hi <= Z.of_nat (length s) ->
  py_slice lo hi s = firstn (Z.to_nat (hi - lo)) (skipn (Z.to_nat lo) s).
Proof.
  intros H Hn. unfold py_slice, py_index.
  destruct (Z.ltb_spec lo 0); [lia|]. destruct (Z.ltb_spec hi 0); [lia|].
  rewrite !Z.min_l by lia. reflexivity.
Qed.

Lemma firstn4_skipn {A} (d : A) k (s : list A) :
  (k + 4 <= length s)%nat ->
  firstn 4 (skipn k s)
  = [nth k s d; nth (k + 1) s d; nth (k + 2) s d; nth (k + 3) s d].
Proof.
  revert s. induction k as [|k IH]; intros s Hs.
  - destruct s as [|a [|b [|c [|e s]]]]; simpl in Hs; try lia. reflexivity.
  - destruct s as [|a s]; simpl in Hs; [lia|]. simpl. apply IH. lia.
Qed.


(** ** The header fields *)

Lemma int32_at_range s k : - 2 ^ 31 <= int32_at s k < 2 ^ 31.
Proof.
  unfold int32_at, byte_at.
  pose proof (byte_val_range (nth k s x00)).
  pose proof (byte_val_range (nth (k + 1) s x00)).
  pose proof (byte_val_range (nth (k + 2) s x00)).
  pose proof (byte_val_range (nth (k + 3) s x00)).
  cbv zeta. match goal with |- context [?u <? ?v] => destruct (Z.ltb_spec u v) end; lia.
Qed.

Lemma unpack_i_at (s : list byte) (k : nat) :
  unpack_i (py_slice (Z.of_nat k) (Z.of_nat k + 4) s)
  = if (k + 4 <=? length s)%nat then Ok (int32_at s k) else Raise StructError.
Proof.
  unfold unpack_i. rewrite py_slice_length by lia.
  destruct (Nat.leb_spec (k + 4) (length s)) as [Hle|Hgt].
  - replace (_ =? 4)%nat with true by (symmetry; apply Nat.eqb_eq; lia).
    rewrite py_slice_inside by lia.
    replace (Z.to_nat (Z.of_nat k + 4 - Z.of_nat k)) with 4%nat by lia.
    rewrite Nat2Z.id, (firstn4_skipn x00) by lia.
    f_equal. rewrite !le_uint_cons. simpl le_uint.
    unfold to_int32, int32_at, byte_at.
    pose proof (byte_val_range (nth k s x00)).
    pose proof (byte_val_range (nth (k + 1) s x00)).
    pose proof (byte_val_range (nth (k + 2) s x00)).
    pose proof (byte_val_range (nth (k + 3) s x00)).
    rewrite testbit31 by lia. cbv zeta.
    match goal with |- context [?u <? ?v] => destruct (Z.ltb_spec u v) end;
    match goal with |- context [?u <=? ?v] => destruct (Z.leb_spec u v) end; lia.
  - replace (_ =? 4)%nat with false; [reflexivity|].
    symmetry. apply Nat.eqb_neq. lia.
Qed.


Ltac unpack_field s k :=
  let H := fresh in
  pose proof (unpack_i_at s k) as H;
  let a := eval vm_compute in (Z.of_nat k) in
  let b := eval vm_compute in (Z.of_nat k + 4) in
  change (Z.of_nat k + 4) with b in H; change (Z.of_nat k) with a in H;
  rewrite H; clear H.

(** Header parsing needs the first 104 bytes and nothing else. *)
Lemma parse_header_spec (Header : list byte) :
  parse_header Header
  = if (104 <=? length Header)%nat then Ok (header_of Header) else Raise StructError.
Proof.
  unfold parse_header.
  unpack_field Header 12%nat. unpack_field Header 16%nat.
  unpack_field Header 20%nat. unpack_field Header 48%nat.
  unpack_field Header 52%nat. unpack_field Header 100%nat.
  repeat match goal with |- context [(?a <=? ?b)%nat] =>
    destruct (Nat.leb_spec a b) end;
  try lia; reflexivity.
Qed.

(** C2. Header parsing is total on every buffer of at least 2048 bytes and
    returns the little-endian signed 32-bit integers found at the fixed
    offsets: SizeX at byte 12, NumBscans at 16, SizeZ at 20, SizeXSlo at 48,
    SizeYSlo at 52 and BscanHdrSize at 100; each field lies in the int32
    range. *)
Theorem parse_header_fixed_offsets (Header : list byte) :
  (2048 <= length Header)%nat ->
  parse_header Header
  = Ok {| SizeX := int32_at Header 12; NumBscans := int32_at Header 16;
          SizeZ := int32_at Header 20; SizeXSlo := int32_at Header 48;
          SizeYSlo := int32_at Header 52; BscanHdrSize := int32_at Header 100 |}
  /\ (forall k, - 2 ^ 31 <= int32_at Header k < 2 ^ 31).
Proof.
  intros Hlen. split; [|intros k; apply int32_at_range].
  rewrite parse_header_spec.
  destruct (Nat.leb_spec 104 (length Header)); [reflexivity|lia].
Qed.

Lemma parse_header_fixed_offsets_witness :
  parse_header (mk_header 4 2 3 0 0 64)
  = Ok {| SizeX := 4; NumBscans := 2; SizeZ := 3; SizeXSlo := 0;
          SizeYSlo := 0; BscanHdrSize := 64 |}.
Proof.
  pose proof (parse_header_fixed_offsets (mk_header 4 2 3 0 0 64)) as H.
  destruct H as [H _].
  - apply Nat.leb_le. vm_compute. reflexivity.
  - rewrite H. vm_compute. reflexivity.
Defined.

(** C6, as the claim states it, fails: a buffer shorter than 2048 bytes is
    parsed without any failure, and so is a 2048-byte header whose sizes
    are all non-positive. *)
Lemma parse_header_no_validation_counterexample :
  let short := firstn 104 (mk_header 4 2 3 0 0 64) in
  let bad := mk_header 0 (-1) 0 0 0 (-8) in
  ((length short < 2048)%nat
   /\ parse_header short
      = Ok {| SizeX := 4; NumBscans := 2; SizeZ := 3; SizeXSlo := 0;
              SizeYSlo := 0; BscanHdrSize := 64 |})
  /\ (length bad = 2048%nat
      /\ exists h, parse_header bad = Ok h
           /\ SizeX h <= 0 /\ SizeZ h <= 0 /\ NumBscans h <= 0 /\ BsBlkSize h <= 0).
Proof.
  cbv zeta. split; [split|split].
  - apply Nat.ltb_lt. vm_compute. reflexivity.
  - vm_compute. reflexivity.
  - vm_compute. reflexivity.
  - eexists. split; [vm_compute; reflexivity|]. vm_compute. intuition discriminate.
Qed.

(** C6, amended.  Header parsing checks nothing but the presence of the
    bytes it unpacks: it raises, with struct.error, exactly when fewer than
    104 bytes are available, and returns the six fields, whatever their
    sign, otherwise; on a buffer of at least 2048 bytes it never fails. *)
Theorem parse_header_failure (Header : list byte) :
  (parse_header Header = Raise StructError <-> (length Header < 104)%nat)
  /\ ((104 <= length Header)%nat -> parse_header Header = Ok (header_of Header))
  /\ ((2048 <= length Header)%nat -> is_ok (parse_header Header) = true).
Proof.
  rewrite parse_header_spec.
  destruct (Nat.leb_spec 104 (length Header)) as [H|H].
  - repeat split; intros; try reflexivity; try lia; try discriminate.
  - repeat split; intros; try reflexivity; try lia.
Qed.

Lemma parse_header_failure_witness :
  parse_header (zeros 103) = Raise StructError
  /\ parse_header (zeros 104) = Ok (mkVolHeader 0 0 0 0 0 0).
Proof.
  split.
  - apply (proj1 (parse_header_failure (zeros 103))). vm_compute. lia.
  - destruct (parse_header_failure (zeros 104)) as (_ & H & _).
    rewrite H by (vm_compute; lia). vm_compute. reflexivity.
Defined.

(** ** The slice records *)

Lemma wrap64_small z : - 2 ^ 63 <= z < 2 ^ 63 -> wrap64 z = z.
Proof. intros H. unfold wrap64. rewrite Z.mod_small; lia. Qed.

Lemma chunks4_length bs w : length bs = (4 * w)%nat -> length (chunks4 bs) = w.
Proof.
  revert bs. induction w as [|w IH]; intros bs Hn.
  - destruct bs; [reflexivity|simpl in Hn; lia].
  - destruct bs as [|b0 [|b1 [|b2 [|b3 rest]]]]; simpl in Hn; try lia.
    cbn [chunks4 length]. f_equal. apply IH. lia.
Qed.

Lemma chunks4_firstn (s : list byte) p w :
  (p + 4 * w <= length s)%nat ->
  chunks4 (firstn (4 * w) (skipn p s))
  = map (fun j => firstn 4 (skipn (p + 4 * j) s)) (seq 0 w).
Proof.
  revert p. induction w as [|w IH]; intros p Hp.
  - reflexivity.
  - replace (4 * S w)%nat with (4 + 4 * w)%nat by lia.
    assert (4 + 4 * w <= length (skipn p s))%nat as Hl by (rewrite length_skipn; lia).
    destruct (skipn p s) as [|b0 [|b1 [|b2 [|b3 rest]]]] eqn:E;
      cbn [length] in Hl; try lia.
    change (firstn (4 + 4 * w) (b0 :: b1 :: b2 :: b3 :: rest))
      with (b0 :: b1 :: b2 :: b3 :: firstn (4 * w) rest).
    cbn [chunks4 seq map]. f_equal.
    + replace (p + 4 * 0)%nat with p by lia. rewrite E. reflexivity.
    + assert (rest = skipn (p + 4) s) as ->.
      { rewrite Nat.add_comm, <- skipn_skipn, E. reflexivity. }
      rewrite IH by lia. rewrite <- seq_shift, map_map.
      apply map_ext. intros j. do 2 f_equal. lia.
Qed.

Lemma le_uint_at (s : list byte) k :
  (k + 4 <= length s)%nat -> le_uint (firstn 4 (skipn k s)) = uint32_at s k.
Proof.
  intros H. rewrite (firstn4_skipn x00) by lia.
  rewrite !le_uint_cons. simpl le_uint. unfold uint32_at, byte_at. lia.
Qed.

Lemma row_width_bytes (h : VolHeader) :
  0 <= SizeX h -> 0 <= SizeZ h ->
  Z.to_nat (SizeX h * SizeZ h * 4) = (4 * (Z.to_nat (SizeZ h) * Z.to_nat (SizeX h)))%nat.
Proof.
  intros HX HZ. rewrite !Z2Nat.inj_mul by lia.
  change (Z.to_nat 4) with 4%nat. lia.
Qed.

Lemma read_bscan_ok file h i :
  holds_records file h -> (Z.of_nat i < NumBscans h) ->
  read_bscan file h (Z.to_nat (SizeZ h) * Z.to_nat (SizeX h)) (Z.of_nat i)
  = Ok (slice_values file h i).
Proof.
  intros (HX & HZ & HN & HH & H0 & Hlen & Hmax) Hi.
  unfold read_bscan, slice_values, payload_offset.
  unfold record_offset in *. unfold data_start, SloImageSize, BsBlkSize.
  set (blk := BscanHdrSize h + SizeX h * SizeZ h * 4) in *.
  set (start := 2048 + SizeXSlo h * SizeYSlo h) in *.
  assert (0 <= SizeX h * SizeZ h * 4) as Hpay by (repeat apply Z.mul_nonneg_nonneg; lia).
  assert (0 <= blk) as Hblk by (unfold blk; lia).
  assert (Z.of_nat i * blk + blk <= NumBscans h * blk) as Hi'.
  { replace (Z.of_nat i * blk + blk) with ((Z.of_nat i + 1) * blk) by ring.
    apply Z.mul_le_mono_nonneg_r; lia. }
  assert (0 <= Z.of_nat i * blk) as Hi0 by (apply Z.mul_nonneg_nonneg; lia).
  rewrite (wrap64_small (Z.of_nat i * blk)) by lia.
  rewrite wrap64_small by lia.
  unfold file_seek. destruct (Z.ltb_spec (start + Z.of_nat i * blk) 0); [lia|].
  cbn [bind]. unfold file_read.
  destruct (Z.eqb_spec blk (-1)); [lia|].
  destruct (Z.ltb_spec blk 0); [lia|].
  destruct (Z.leb_spec (2 ^ 63) blk); [lia|].
  cbn [bind].
  set (pos := start + Z.of_nat i * blk) in *.
  assert (length (firstn (Z.to_nat blk) (skipn (Z.to_nat pos) file)) = Z.to_nat blk) as HL.
  { rewrite length_firstn, length_skipn. lia. }
  rewrite py_slice_inside by (try rewrite HL; unfold blk; lia).
  replace (SizeX h * SizeZ h * 4 + BscanHdrSize h - BscanHdrSize h)
    with (SizeX h * SizeZ h * 4) by lia.
  rewrite row_width_bytes by lia.
  set (w := (Z.to_nat (SizeZ h) * Z.to_nat (SizeX h))%nat).
  assert (Z.to_nat blk = (Z.to_nat (BscanHdrSize h) + 4 * w)%nat) as Eblk.
  { unfold blk. rewrite Z2Nat.inj_add by lia. rewrite row_width_bytes by lia. reflexivity. }
  rewrite Eblk.
  rewrite skipn_firstn_comm, firstn_firstn, skipn_skipn.
  replace (Z.to_nat (BscanHdrSize h) + 4 * w - Z.to_nat (BscanHdrSize h))%nat
    with (4 * w)%nat by lia.
  rewrite Nat.min_id.
  unfold unpack_f. rewrite length_firstn, length_skipn.
  replace (_ =? _)%nat with true by (symmetry; apply Nat.eqb_eq; lia).
  f_equal. rewrite chunks4_firstn by lia. rewrite map_map.
  apply map_ext_in. intros j Hj. apply in_seq in Hj.
  unfold f32_at. f_equal.
  replace (Z.to_nat (BscanHdrSize h) + Z.to_nat pos + 4 * j)%nat
    with (Z.to_nat (pos + BscanHdrSize h) + 4 * j)%nat by lia.
  apply le_uint_at. lia.
Qed.

Lemma slice_values_length file h i :
  length (slice_values file h i) = (Z.to_nat (SizeZ h) * Z.to_nat (SizeX h))%nat.
Proof. unfold slice_values. rewrite length_map, length_seq. reflexivity. Qed.

Lemma rows_length file h k :
  length (concat (map (slice_values file h) (seq 0 k)))
  = (k * (Z.to_nat (SizeZ h) * Z.to_nat (SizeX h)))%nat.
Proof.
  induction k as [|k IH]; [reflexivity|].
  rewrite seq_S, map_app, concat_app, length_app, IH. cbn [map concat Nat.add].
  rewrite app_nil_r, slice_values_length. lia.
Qed.

Lemma rows_lookup file h k i j :
  (i < k)%nat -> (j < Z.to_nat (SizeZ h) * Z.to_nat (SizeX h))%nat ->
  concat (map (slice_values file h) (seq 0 k))
    !! (i * (Z.to_nat (SizeZ h) * Z.to_nat (SizeX h)) + j)%nat
  = slice_values file h i !! j.
Proof.
  intros Hi Hj. induction k as [|k IH]; [lia|].
  rewrite seq_S, map_app, concat_app. cbn [map concat Nat.add]. rewrite app_nil_r.
  destruct (Nat.eq_dec i k) as [->|Hne].
  - rewrite lookup_app_r by (rewrite rows_length; lia).
    rewrite rows_length. f_equal. lia.
  - rewrite lookup_app_l by (rewrite rows_length; nia).
    apply IH. lia.
Qed.

Lemma fill_bscans_app file h w l1 l2 d :
  fill_bscans file h w (l1 ++ l2) d
  = (d' <- fill_bscans file h w l1 d ;; fill_bscans file h w l2 d').
Proof.
  revert d. induction l1 as [|i l1 IH]; intros d; [reflexivity|].
  cbn [app fill_bscans]. destruct (read_bscan file h w (Z.of_nat i)); [|reflexivity].
  cbn [bind]. apply IH.
Qed.

(** The loop invariant: after [k] turns the buffer holds the first [k]
    slices, in file order, followed by what is left of the initial fill. *)
Lemma fill_bscans_prefix file h (v : fval) k :
  holds_records file h -> (k <= Z.to_nat (NumBscans h))%nat ->
  let w := (Z.to_nat (SizeZ h) * Z.to_nat (SizeX h))%nat in
  fill_bscans file h w (seq 0 k) (replicate (Z.to_nat (NumBscans h) * w) v)
  = Ok (concat (map (slice_values file h) (seq 0 k))
        ++ replicate ((Z.to_nat (NumBscans h) - k) * w) v).
Proof.
  intros Hrec Hk w. induction k as [|k IH].
  - cbn [seq fill_bscans map concat app]. rewrite Nat.sub_0_r. reflexivity.
  - rewrite seq_S, fill_bscans_app, IH by lia. cbn [bind Nat.add fill_bscans].
    fold w. rewrite read_bscan_ok by (assumption || lia). cbn [bind].
    f_equal. unfold set_row.
    pose proof (rows_length file h k) as HL. fold w in HL.
    rewrite <- HL at 1. rewrite take_app_length.
    rewrite map_app, concat_app. cbn [map concat]. rewrite app_nil_r, <- app_assoc.
    f_equal. f_equal.
    rewrite drop_app_ge by lia. rewrite HL, drop_replicate.
    f_equal. replace (k * w + w - k * w)%nat with w by lia.
    replace (Z.to_nat (NumBscans h) - k)%nat
      with (S (Z.to_nat (NumBscans h) - S k)) by lia.
    rewrite Nat.mul_succ_l. apply Nat.add_sub.
Qed.

Lemma np_full_ok (n z x : Z) v :
  0 <= n -> 0 <= z -> 0 <= x ->
  np_full [n; z; x] v
  = Ok (mkArray [Z.to_nat n; Z.to_nat z; Z.to_nat x]
                (replicate (Z.to_nat n * (Z.to_nat z * Z.to_nat x)) v)).
Proof.
  intros Hn Hz Hx. unfold np_full. cbn [forallb].
  destruct (Z.leb_spec 0 n); [|lia]. destruct (Z.leb_spec 0 z); [|lia].
  destruct (Z.leb_spec 0 x); [|lia]. cbn [andb map size_of fold_right].
  rewrite Nat.mul_1_r. reflexivity.
Qed.

(** C1. On a file that holds the records its header declares, the
    assembler allocates a buffer of shape [NumBscans, SizeZ, SizeX] filled
    with -1.0 and stores slice i of the file in row i of it: after the
    first k turns of its loop the buffer holds the first k slices, in file
    order, followed by the -1.0 of the rows not yet written.  In the
    result element (i, r, c) is the little-endian binary32 float found at
    byte offset 2048 + SizeXSlo*SizeYSlo + i*(BscanHdrSize + SizeX*SizeZ*4)
    + BscanHdrSize + 4*(r*SizeX + c): the record of slice i, read row-major
    after its header. *)
Theorem assemble_layout (file : list byte) (h : VolHeader) :
  holds_records file h ->
  let n := Z.to_nat (NumBscans h) in
  let z := Z.to_nat (SizeZ h) in
  let x := Z.to_nat (SizeX h) in
  assemble_upto file h [] = Ok (mkArray [n; z; x] (replicate (n * (z * x)) f_neg_one))
  /\ (forall k, (k <= n)%nat ->
       assemble_upto file h (seq 0 k)
       = Ok (mkArray [n; z; x]
               (concat (map (slice_values file h) (seq 0 k))
                ++ replicate ((n - k) * (z * x)) f_neg_one)))
  /\ exists vol,
       assemble file h = Ok vol
       /\ shape vol = [n; z; x]
       /\ data vol = concat (map (slice_values file h) (seq 0 n))
       /\ forall i r c, (i < n)%nat -> (r < z)%nat -> (c < x)%nat ->
            data vol !! ((i * z + r) * x + c)%nat
            = Some (f32_at file
                      (Z.to_nat (record_offset h (Z.of_nat i) + BscanHdrSize h)
                       + 4 * (r * x + c))).
Proof.
  intros Hrec n z x. pose proof Hrec as (HX & HZ & HN & _). subst n z x.
  assert (forall k, (k <= Z.to_nat (NumBscans h))%nat ->
            assemble_upto file h (seq 0 k)
            = Ok (mkArray [Z.to_nat (NumBscans h); Z.to_nat (SizeZ h); Z.to_nat (SizeX h)]
                    (concat (map (slice_values file h) (seq 0 k))
                     ++ replicate ((Z.to_nat (NumBscans h) - k)
                                   * (Z.to_nat (SizeZ h) * Z.to_nat (SizeX h))) f_neg_one)))
    as Hupto.
  { intros k Hk. unfold assemble_upto. rewrite np_full_ok by assumption.
    cbn [bind data shape].
    rewrite (fill_bscans_prefix file h f_neg_one k Hrec Hk). reflexivity. }
  split; [|split].
  - unfold assemble_upto. rewrite np_full_ok by assumption. reflexivity.
  - exact Hupto.
  - unfold assemble. rewrite Hupto by lia. rewrite Nat.sub_diag. cbn [Nat.mul replicate].
    rewrite app_nil_r. eexists. split; [reflexivity|]. cbn [shape data].
    split; [reflexivity|]. split; [reflexivity|].
    intros i r c Hi Hr Hc.
    match goal with |- ?l !! ((i * ?z + r) * ?x + c)%nat = _ =>
      replace ((i * z + r) * x + c)%nat with (i * (z * x) + (r * x + c))%nat by lia end.
    assert (r * Z.to_nat (SizeX h) + c < Z.to_nat (SizeZ h) * Z.to_nat (SizeX h))%nat
      as Hj by nia.
    rewrite rows_lookup by assumption.
    unfold slice_values. rewrite list_lookup_fmap.
    rewrite (proj2 (lookup_seq 0 _ _ _)) by (split; [reflexivity|assumption]).
    reflexivity.
Qed.

Lemma example_file_holds_records : holds_records example_file example_header.
Proof.
  unfold holds_records. 
  replace (Z.of_nat (length example_file)) with 2272 by (vm_compute; reflexivity).
  vm_compute. intuition discriminate.
Defined.

Lemma assemble_layout_witness :
  (exists buf,
     assemble_upto example_file example_header [0%nat] = Ok buf
     /\ data buf !! 11%nat = Some (decode_f32 0x7F7FFFFF)
     /\ data buf !! 12%nat = Some (FFin (-1)) /\ data buf !! 23%nat = Some (FFin (-1)))
  /\ exists vol,
       assemble example_file example_header = Ok vol
       /\ shape vol = [2; 3; 4]%nat
       /\ data vol !! 23%nat = Some (FFin 3).
Proof.
  destruct (assemble_layout example_file example_header example_file_holds_records)
    as (_ & Hk & (vol & Ha & Hs & _ & He)).
  split.
  - eexists. split; [apply (Hk 1%nat); vm_compute; lia|]. cbn [data].
    repeat split; vm_compute; reflexivity.
  - exists vol. split; [exact Ha|]. split; [exact Hs|].
    pose proof (He 1%nat 2%nat 3%nat) as H.
    change ((1 * Z.to_nat (SizeZ example_header) + 2)
            * Z.to_nat (SizeX example_header) + 3)%nat with 23%nat in H.
    rewrite H by (vm_compute; lia).
    vm_compute. reflexivity.
Defined.

(** ** Sentinel cleanup *)

Lemma f_ltb_not_geb a b : f_ltb a b = true -> f_geb a b = false.
Proof.
  unfold f_ltb, f_geb. destruct a as [| |x], b as [| |y]; try discriminate;
    intros H; apply negb_true_iff in H; exact H.
Qed.

Lemma clean_elem_ge v : f_geb v sentinel_threshold = true -> clean_elem v = f_zero.
Proof. unfold clean_elem. intros ->. reflexivity. Qed.

Lemma clean_elem_lt v : f_ltb v sentinel_threshold = true -> clean_elem v = v.
Proof. unfold clean_elem. intros H. rewrite (f_ltb_not_geb _ _ H). reflexivity. Qed.

(** C3. The cleanup replaces every element that compares >= 3.40e38 (the
    large finite values and plus infinity) by exactly 0.0 and leaves every
    element that compares below the threshold as it is; the minimum and
    the maximum of [read_vol_file] are those of the cleaned elements. *)
Theorem sentinel_cleanup_spec (d : list fval) :
  length (sentinel_cleanup d) = length d
  /\ (forall i v, d !! i = Some v ->
        (f_geb v sentinel_threshold = true -> sentinel_cleanup d !! i = Some f_zero)
        /\ (f_ltb v sentinel_threshold = true -> sentinel_cleanup d !! i = Some v))
  /\ (forall q, (threshold_q <= q)%Q -> clean_elem (FFin q) = FFin 0)
  /\ (forall q, (q < threshold_q)%Q -> clean_elem (FFin q) = FFin q)
  /\ clean_elem (FInf false) = FFin 0
  /\ (forall rnd sh out, postprocess rnd (mkArray sh d) = Ok out ->
        exists m M, np_min (sentinel_cleanup d) = Ok m
                    /\ np_max (sentinel_cleanup d) = Ok M
                    /\ normalize rnd (sentinel_cleanup d) = Ok (data out)).
Proof.
  split; [apply length_map|]. split; [|split; [|split; [|split]]].
  - intros i v Hv. unfold sentinel_cleanup.
    split; intros Hc; rewrite list_lookup_fmap, Hv; cbn [fmap option_fmap option_map];
      f_equal; [apply clean_elem_ge|apply clean_elem_lt]; assumption.
  - intros q Hq. apply clean_elem_ge. unfold f_geb, sentinel_threshold, f_leb.
    apply Qle_bool_iff. exact Hq.
  - intros q Hq. apply clean_elem_lt. unfold f_ltb, sentinel_threshold, f_leb.
    apply negb_true_iff. apply not_true_is_false. intros H.
    apply Qle_bool_iff in H. apply (Qlt_not_le _ _ Hq). exact H.
  - reflexivity.
  - intros rnd sh out. unfold postprocess, normalize. cbn [data shape].
    destruct (np_min (sentinel_cleanup d)) as [m|e]; [|discriminate].
    destruct (np_max (sentinel_cleanup d)) as [M|e]; [|discriminate].
    cbn [bind]. destruct (f_gtb M m); cbn [bind]; intros [= <-]; eauto.
Qed.

Lemma sentinel_cleanup_spec_witness :
  sentinel_cleanup [decode_f32 0x7F7FFFFF; FFin 2] !! 0%nat = Some f_zero
  /\ sentinel_cleanup [decode_f32 0x7F7FFFFF; FFin 2] !! 1%nat = Some (FFin 2).
Proof.
  destruct (sentinel_cleanup_spec [decode_f32 0x7F7FFFFF; FFin 2]) as (_ & H & _).
  split.
  - apply (H 0%nat (decode_f32 0x7F7FFFFF)); reflexivity.
  - apply (H 1%nat (FFin 2)); reflexivity.
Defined.

(** ** Minimum, maximum and normalisation *)

Lemma fold_min_finite xs : forall qx,
  Forall (fun v => is_finite v = true) xs ->
  exists qm, fold_left f_min xs (FFin qx) = FFin qm
    /\ (qm <= qx)%Q
    /\ (forall q, In (FFin q) xs -> (qm <= q)%Q)
    /\ In (FFin qm) (FFin qx :: xs).
Proof.
  induction xs as [|y xs IH]; intros qx Hfin.
  - exists qx. cbn. repeat split; [lra|tauto|tauto].
  - apply Forall_cons in Hfin as [Hy Hxs]. destruct y as [| |qy]; try discriminate.
    cbn [fold_left]. unfold f_min at 2. cbn [is_nan f_leb].
    destruct (Qle_bool qx qy) eqn:E.
    + apply Qle_bool_iff in E. destruct (IH qx Hxs) as (qm & Hf & Hle & Hall & Hin).
      exists qm. split; [exact Hf|]. split; [exact Hle|]. split.
      * intros q [[= ->]|Hq]; [lra|auto].
      * destruct Hin as [Hin|Hin]; [left; exact Hin|right; right; exact Hin].
    + assert (qy < qx)%Q as Hlt.
      { apply Qnot_le_lt. intros H. apply Qle_bool_iff in H. congruence. }
      destruct (IH qy Hxs) as (qm & Hf & Hle & Hall & Hin).
      exists qm. split; [exact Hf|]. split; [lra|]. split.
      * intros q [[= ->]|Hq]; [lra|auto].
      * right. exact Hin.
Qed.

Lemma fold_max_finite xs : forall qx,
  Forall (fun v => is_finite v = true) xs ->
  exists qM, fold_left f_max xs (FFin qx) = FFin qM
    /\ (qx <= qM)%Q
    /\ (forall q, In (FFin q) xs -> (q <= qM)%Q)
    /\ In (FFin qM) (FFin qx :: xs).
Proof.
  induction xs as [|y xs IH]; intros qx Hfin.
  - exists qx. cbn. repeat split; [lra|tauto|tauto].
  - apply Forall_cons in Hfin as [Hy Hxs]. destruct y as [| |qy]; try discriminate.
    cbn [fold_left]. unfold f_max at 2. cbn [is_nan f_geb f_leb].
    destruct (Qle_bool qy qx) eqn:E.
    + apply Qle_bool_iff in E. destruct (IH qx Hxs) as (qm & Hf & Hle & Hall & Hin).
      exists qm. split; [exact Hf|]. split; [exact Hle|]. split.
      * intros q [[= ->]|Hq]; [lra|auto].
      * destruct Hin as [Hin|Hin]; [left; exact Hin|right; right; exact Hin].
    + assert (qx < qy)%Q as Hlt.
      { apply Qnot_le_lt. intros H. apply Qle_bool_iff in H. congruence. }
      destruct (IH qy Hxs) as (qm & Hf & Hle & Hall & Hin).
      exists qm. split; [exact Hf|]. split; [lra|]. split.
      * intros q [[= ->]|Hq]; [lra|auto].
      * right. exact Hin.
Qed.

Lemma np_min_finite d m :
  Forall (fun v => is_finite v = true) d -> np_min d = Ok m ->
  exists qm, m = FFin qm /\ In (FFin qm) d /\ (forall q, In (FFin q) d -> (qm <= q)%Q).
Proof.
  intros Hfin Hm. destruct d as [|x xs]; [discriminate|].
  apply Forall_cons in Hfin as [Hx Hxs]. destruct x as [| |qx]; try discriminate.
  cbn [np_min] in Hm. injection Hm as <-.
  destruct (fold_min_finite xs qx Hxs) as (qm & Hf & Hle & Hall & Hin).
  exists qm. split; [exact Hf|]. split; [exact Hin|].
  intros q [[= ->]|Hq]; [exact Hle|auto].
Qed.

Lemma np_max_finite d M :
  Forall (fun v => is_finite v = true) d -> np_max d = Ok M ->
  exists qM, M = FFin qM /\ In (FFin qM) d /\ (forall q, In (FFin q) d -> (q <= qM)%Q).
Proof.
  intros Hfin Hm. destruct d as [|x xs]; [discriminate|].
  apply Forall_cons in Hfin as [Hx Hxs]. destruct x as [| |qx]; try discriminate.
  cbn [np_max] in Hm. injection Hm as <-.
  destruct (fold_max_finite xs qx Hxs) as (qM & Hf & Hle & Hall & Hin).
  exists qM. split; [exact Hf|]. split; [exact Hin|].
  intros q [[= ->]|Hq]; [exact Hle|auto].
Qed.

Lemma binary32_value_finite v : binary32_value v -> is_finite v = true.
Proof. destruct v; cbn; tauto. Qed.

Lemma grid_gap (a b : Q) :
  binary32_value (FFin a) -> binary32_value (FFin b) -> (a < b)%Q -> (tiny <= b - a)%Q.
Proof.
  intros [ka Ha] [kb Hb] Hlt. rewrite Ha, Hb in *. unfold tiny.
  unfold Qlt in Hlt. unfold Qle, Qminus, Qplus, Qopp. cbn [Qnum Qden] in *.
  nia.
Qed.

Lemma tiny_pos : (0 < tiny)%Q.
Proof. reflexivity. Qed.

Lemma normalized_in_unit rnd (q qm qM : Q) :
  rounding rnd -> (qm <= q)%Q -> (q <= qM)%Q -> (tiny <= qM - qm)%Q ->
  in_unit (f_div rnd (f_sub rnd (FFin q) (FFin qm)) (f_sub rnd (FFin qM) (FFin qm))).
Proof.
  intros (Hmono & H0 & H1 & Ht) Hlo Hhi Hgap.
  cbn [f_sub f_div].
  set (a := rnd (q - qm)%Q). set (b := rnd (qM - qm)%Q).
  assert (0 <= a)%Q as Ha. { rewrite <- H0. apply Hmono. lra. }
  assert (a <= b)%Q as Hab. { apply Hmono. lra. }
  assert (0 < b)%Q as Hb.
  { apply Qlt_le_trans with tiny; [apply tiny_pos|]. rewrite <- Ht. apply Hmono, Hgap. }
  unfold q_zero. destruct (Qeq_bool b 0) eqn:E.
  - apply Qeq_bool_iff in E. lra.
  - cbn [in_unit]. split.
    + rewrite <- H0. apply Hmono. apply Qle_shift_div_l; [exact Hb|lra].
    + rewrite <- H1. apply Hmono. apply Qle_shift_div_r; [exact Hb|lra].
Qed.

(** C4 at a failing input.  The docstring of [read_vol_file] promises a
    volume normalized to the range [0,1].  The cleanup replaces only the
    values that compare >= 3.40e38: minus infinity passes it, becomes the
    minimum, and (v - min)/(max - min) is NaN for every element, whatever
    the rounding.  The file below is one the decoder accepts: one slice
    of one row, with the pixels 0xFF800000 and 0x00000000. *)
Theorem normalize_minus_infinity_gives_nan :
  length neg_inf_file = 2108%nat
  /\ read_bscans neg_inf_file = Ok (mkArray [1; 1; 2]%nat [FInf true; FFin 0])
  /\ sentinel_cleanup [FInf true; FFin 0] = [FInf true; FFin 0]
  /\ np_min [FInf true; FFin 0] = Ok (FInf true)
  /\ np_max [FInf true; FFin 0] = Ok (FFin 0)
  /\ f_gtb (FFin 0) (FInf true) = true
  /\ (fun rnd : Q -> Q => read_vol_file rnd neg_inf_file)
     = (fun _ => Ok (mkArray [1; 1; 2]%nat [FNaN; FNaN]))
  /\ ~ in_unit FNaN.
Proof.
  repeat split; try (vm_compute; reflexivity). intros [].
Qed.

Lemma normalize_when_gt rnd d m M :
  np_min d = Ok m -> np_max d = Ok M -> f_gtb M m = true ->
  normalize rnd d = Ok (map (fun v => f_div rnd (f_sub rnd v m) (f_sub rnd M m)) d).
Proof. intros Hm HM Hgt. unfold normalize. rewrite Hm, HM. cbn [bind]. rewrite Hgt. reflexivity. Qed.

Lemma normalize_when_not_gt rnd d m M :
  np_min d = Ok m -> np_max d = Ok M -> f_gtb M m = false -> normalize rnd d = Ok d.
Proof. intros Hm HM Hgt. unfold normalize. rewrite Hm, HM. cbn [bind]. rewrite Hgt. reflexivity. Qed.

Lemma f_gtb_finite qM qm : f_gtb (FFin qM) (FFin qm) = true -> (qm < qM)%Q.
Proof.
  unfold f_gtb, f_ltb. cbn [f_leb]. intros Hgt.
  apply negb_true_iff in Hgt. apply Qnot_le_lt. intros H.
  apply Qle_bool_iff in H. congruence.
Qed.

Lemma normalized_all_in_unit rnd d m M :
  rounding rnd -> Forall binary32_value d ->
  np_min d = Ok m -> np_max d = Ok M -> f_gtb M m = true ->
  Forall in_unit (map (fun v => f_div rnd (f_sub rnd v m) (f_sub rnd M m)) d).
Proof.
  intros Hrnd Hgrid Hm HM Hgt.
  assert (Forall (fun v => is_finite v = true) d) as Hfin.
  { eapply Forall_impl; [exact Hgrid|]. apply binary32_value_finite. }
  destruct (np_min_finite d m Hfin Hm) as (qm & -> & Hinm & Hlo).
  destruct (np_max_finite d M Hfin HM) as (qM & -> & HinM & Hhi).
  pose proof (f_gtb_finite _ _ Hgt) as Hlt.
  rewrite Forall_forall in Hgrid.
  assert (tiny <= qM - qm)%Q as Hgap.
  { apply grid_gap; [apply Hgrid, list_elem_of_In, Hinm
                    |apply Hgrid, list_elem_of_In, HinM|exact Hlt]. }
  apply Forall_forall. intros out Hout.
  apply list_elem_of_In, in_map_iff in Hout as (v & <- & Hv).
  pose proof (Hgrid v (proj2 (list_elem_of_In _ _) Hv)) as Hbv.
  destruct v as [| |q]; try contradiction.
  apply normalized_in_unit; auto.
Qed.


Lemma identity_rounding : rounding (fun q => q).
Proof. unfold rounding. repeat split; auto; reflexivity. Defined.


(** ** Files that agree outside a window *)

Lemma agree_firstn {A} (d : A) (l1 l2 : list A) j :
  length l1 = length l2 ->
  (forall k, (k < j)%nat -> nth k l1 d = nth k l2 d) ->
  firstn j l1 = firstn j l2.
Proof.
  intros Hlen H. apply (nth_ext _ _ d d).
  - rewrite !length_firstn. lia.
  - intros k Hk. rewrite length_firstn in Hk.
    rewrite !nth_firstn. destruct (Nat.ltb_spec k j); [apply H; lia|reflexivity].
Qed.

Lemma agree_skipn {A} (d : A) (l1 l2 : list A) j :
  length l1 = length l2 ->
  (forall k, (j <= k)%nat -> nth k l1 d = nth k l2 d) ->
  skipn j l1 = skipn j l2.
Proof.
  intros Hlen H. apply (nth_ext _ _ d d).
  - rewrite !length_skipn. lia.
  - intros k Hk. rewrite !nth_skipn. apply H. lia.
Qed.

Lemma skipn_more {A} (l1 l2 : list A) j j' :
  (j <= j')%nat -> skipn j l1 = skipn j l2 -> skipn j' l1 = skipn j' l2.
Proof.
  intros Hj H. replace j' with ((j' - j) + j)%nat by lia.
  rewrite <- !skipn_skipn, H. reflexivity.
Qed.

Lemma firstn_less {A} (l1 l2 : list A) j j' :
  (j' <= j)%nat -> firstn j l1 = firstn j l2 -> firstn j' l1 = firstn j' l2.
Proof.
  intros Hj H. replace j' with (Nat.min j' j) by lia.
  rewrite <- !firstn_firstn, H. reflexivity.
Qed.

Lemma py_slice_length_gen {A} lo hi (s1 s2 : list A) :
  length s1 = length s2 -> length (py_slice lo hi s1) = length (py_slice lo hi s2).
Proof.
  intros H. unfold py_slice. rewrite !length_firstn, !length_skipn, H. reflexivity.
Qed.

(** A slice of a block read at [pos] only looks at the file from
    [pos + lo] on. *)
Lemma py_slice_block_agree (f1 f2 : list byte) pos n lo hi :
  length f1 = length f2 -> 0 <= lo ->
  skipn (pos + Z.to_nat lo) f1 = skipn (pos + Z.to_nat lo) f2 ->
  py_slice lo hi (firstn n (skipn pos f1)) = py_slice lo hi (firstn n (skipn pos f2)).
Proof.
  intros Hlen Hlo Hs. unfold py_slice.
  rewrite !length_firstn, !length_skipn, <- Hlen.
  set (len := Z.of_nat (Nat.min n (length f1 - pos))).
  f_equal. unfold py_index. destruct (Z.ltb_spec lo 0); [lia|].
  rewrite !skipn_firstn_comm, !skipn_skipn.
  destruct (Z.le_gt_cases lo len).
  - rewrite Z.min_l by lia. rewrite Nat.add_comm, Hs. reflexivity.
  - rewrite Z.min_r by lia. unfold len. rewrite Nat2Z.id.
    destruct (Nat.le_gt_cases n (length f1 - pos)).
    + rewrite Nat.min_l by lia. rewrite Nat.sub_diag. reflexivity.
    + rewrite Nat.min_r by lia. rewrite !skipn_all2; [reflexivity | |]; lia.
Qed.

Section NumSegWindow.

Variables (f1 f2 : list byte) (h : VolHeader).
Hypothesis Hlen : length f1 = length f2.
Hypothesis Hmax : Z.of_nat (length f1) < 2 ^ 63.
Hypothesis Hslo : 0 <= SloImageSize h.
Hypothesis Hhdr : 52 <= BscanHdrSize h.
Hypothesis HX : 0 <= SizeX h.
Hypothesis HZ : 0 <= SizeZ h.
Hypothesis Hagree :
  skipn (Z.to_nat (data_start h + 52)) f1 = skipn (Z.to_nat (data_start h + 52)) f2.

Lemma payload_nonneg : 0 <= SizeX h * SizeZ h * 4.
Proof. repeat apply Z.mul_nonneg_nonneg; lia. Qed.

Lemma read_bscan_agree w i :
  0 <= i -> data_start h + i * BsBlkSize h < 2 ^ 63 ->
  read_bscan f1 h w i = read_bscan f2 h w i.
Proof.
  intros Hi Hpos. pose proof payload_nonneg as Hpay.
  unfold read_bscan. unfold data_start, BsBlkSize in *.
  set (blk := BscanHdrSize h + SizeX h * SizeZ h * 4) in *.
  assert (0 <= i * blk) by (apply Z.mul_nonneg_nonneg; unfold blk; lia).
  rewrite (wrap64_small (i * blk)) by lia. rewrite wrap64_small by lia.
  unfold file_seek. destruct (Z.ltb_spec (2048 + SloImageSize h + i * blk) 0); [lia|].
  cbn [bind]. unfold file_read.
  destruct (Z.eqb_spec blk (-1)); [unfold blk in *; lia|].
  destruct (Z.ltb_spec blk 0); [reflexivity|].
  destruct (Z.leb_spec (2 ^ 63) blk); [reflexivity|].
  cbn [bind]. f_equal. apply py_slice_block_agree; [exact Hlen|lia|].
  eapply skipn_more; [|exact Hagree]. lia.
Qed.

Lemma read_bscan_inside w i row :
  (0 < w)%nat -> w = (Z.to_nat (SizeZ h) * Z.to_nat (SizeX h))%nat ->
  0 <= i -> data_start h + i * BsBlkSize h < 2 ^ 63 ->
  read_bscan f1 h w i = Ok row ->
  data_start h + i * BsBlkSize h + BsBlkSize h <= Z.of_nat (length f1).
Proof.
  intros Hw Ew Hi Hpos. pose proof payload_nonneg as Hpay.
  unfold read_bscan. unfold data_start, BsBlkSize in *.
  set (blk := BscanHdrSize h + SizeX h * SizeZ h * 4) in *.
  assert (0 <= i * blk) by (apply Z.mul_nonneg_nonneg; unfold blk; lia).
  rewrite (wrap64_small (i * blk)) by lia. rewrite wrap64_small by lia.
  unfold file_seek. destruct (Z.ltb_spec (2048 + SloImageSize h + i * blk) 0); [lia|].
  cbn [bind]. unfold file_read.
  destruct (Z.eqb_spec blk (-1)); [unfold blk in *; lia|].
  destruct (Z.ltb_spec blk 0); [discriminate|].
  destruct (Z.leb_spec (2 ^ 63) blk); [discriminate|].
  cbn [bind]. unfold unpack_f.
  match goal with |- context [(?a =? ?b)%nat] => destruct (Nat.eqb_spec a b) as [E|E] end;
    [|discriminate].
  intros _. rewrite py_slice_length in E by lia.
  rewrite length_firstn, length_skipn in E.
  assert (4 * w = Z.to_nat (SizeX h * SizeZ h * 4))%nat as E4.
  { rewrite !Z2Nat.inj_mul by lia. change (Z.to_nat 4) with 4%nat. lia. }
  lia.
Qed.

Lemma read_bscan_empty_rows (f : list byte) i :
  SizeX h * SizeZ h * 4 = 0 ->
  read_bscan f h 0 i
  = (pos <- file_seek (wrap64 (data_start h + wrap64 (i * BsBlkSize h))) ;;
     if 2 ^ 63 <=? BsBlkSize h then Raise OverflowError else Ok []).
Proof.
  intros E0. unfold read_bscan. destruct (file_seek _) as [pos|e]; [|reflexivity].
  cbn [bind]. unfold file_read, BsBlkSize. rewrite E0.
  destruct (Z.eqb_spec (BscanHdrSize h + 0) (-1)); [lia|].
  destruct (Z.ltb_spec (BscanHdrSize h + 0) 0); [lia|].
  destruct (Z.leb_spec (2 ^ 63) (BscanHdrSize h + 0)); [reflexivity|].
  cbn [bind]. unfold unpack_f, py_slice. rewrite Z.add_0_l, Z.sub_diag.
  reflexivity.
Qed.

Lemma fill_bscans_agree_nonempty w : 
  (0 < w)%nat -> w = (Z.to_nat (SizeZ h) * Z.to_nat (SizeX h))%nat ->
  forall n a d,
    data_start h + Z.of_nat a * BsBlkSize h < 2 ^ 63 ->
    fill_bscans f1 h w (seq a n) d = fill_bscans f2 h w (seq a n) d.
Proof.
  intros Hw Ew. induction n as [|n IH]; intros a d Ha; [reflexivity|].
  cbn [seq fill_bscans].
  rewrite <- (read_bscan_agree w (Z.of_nat a)) by lia.
  destruct (read_bscan f1 h w (Z.of_nat a)) as [row|e] eqn:E; [|reflexivity].
  cbn [bind]. apply IH.
  apply read_bscan_inside in E; [|assumption|assumption|lia|lia]. lia.
Qed.

Lemma fill_bscans_agree_empty :
  SizeX h * SizeZ h * 4 = 0 ->
  forall idx d, fill_bscans f1 h 0 idx d = fill_bscans f2 h 0 idx d.
Proof.
  intros E0. induction idx as [|i idx IH]; intros d; [reflexivity|].
  cbn [fill_bscans]. rewrite !read_bscan_empty_rows by assumption.
  destruct (file_seek _); [|reflexivity]. cbn [bind].
  destruct (2 ^ 63 <=? BsBlkSize h); [reflexivity|]. cbn [bind]. apply IH.
Qed.

End NumSegWindow.

Lemma file_read_header f : file_read f 0 2048 = Ok (firstn 2048 f).
Proof. reflexivity. Qed.

Lemma unpack_i_length_only (b1 b2 : list byte) {T} (r : result T) :
  length b1 = length b2 ->
  (v <- unpack_i b1 ;; r) = (v <- unpack_i b2 ;; r).
Proof.
  intros H. unfold unpack_i. rewrite H. destruct (_ =? _)%nat; reflexivity.
Qed.

(** The segmentation count is read and dropped: what follows sees only
    whether the read succeeded, which the length of the file decides. *)
Lemma read_NumSeg_dropped (f1 f2 : list byte) h {T} (r : result T) :
  length f1 = length f2 ->
  (NumSeg <- read_NumSeg f1 h ;; r) = (NumSeg <- read_NumSeg f2 h ;; r).
Proof.
  intros Hlen. unfold read_NumSeg.
  destruct (file_seek (data_start h)) as [pos|e]; [|reflexivity]. cbn [bind].
  unfold file_read.
  destruct (BsBlkSize h =? -1).
  - cbn [bind]. apply unpack_i_length_only. do 2 apply py_slice_length_gen.
    rewrite !length_skipn. lia.
  - destruct (BsBlkSize h <? 0); [reflexivity|].
    destruct (2 ^ 63 <=? BsBlkSize h); [reflexivity|].
    cbn [bind]. apply unpack_i_length_only. do 2 apply py_slice_length_gen.
    rewrite !length_firstn, !length_skipn. lia.
Qed.

Lemma assemble_agree (f1 f2 : list byte) h :
  length f1 = length f2 -> Z.of_nat (length f1) < 2 ^ 63 ->
  0 <= SloImageSize h <= 2 ^ 62 -> 52 <= BscanHdrSize h ->
  skipn (Z.to_nat (data_start h + 52)) f1 = skipn (Z.to_nat (data_start h + 52)) f2 ->
  assemble f1 h = assemble f2 h.
Proof.
  intros Hlen Hmax Hslo Hhdr Hagree. unfold assemble, assemble_upto, np_full. cbn [forallb].
  destruct (Z.leb_spec 0 (NumBscans h)); [|reflexivity].
  destruct (Z.leb_spec 0 (SizeZ h)); [|reflexivity].
  destruct (Z.leb_spec 0 (SizeX h)); [|reflexivity].
  cbn [andb bind data shape].
  destruct (Nat.eq_dec (Z.to_nat (SizeZ h) * Z.to_nat (SizeX h))%nat 0%nat) as [E|E].
  - rewrite E.
    assert (SizeX h * SizeZ h * 4 = 0) as E0.
    { assert (SizeZ h = 0 \/ SizeX h = 0) as [->| ->] by lia; lia. }
    erewrite fill_bscans_agree_empty; try reflexivity; try eassumption; try lia.
  - erewrite fill_bscans_agree_nonempty; try reflexivity; try eassumption; try lia.
    unfold data_start. lia.
Qed.

Lemma parsed_header_ranges Header h :
  parse_header Header = Ok h ->
  h = header_of Header /\ SloImageSize h <= 2 ^ 62.
Proof.
  rewrite parse_header_spec. destruct (104 <=? length Header)%nat; [|discriminate].
  intros [= <-]. split; [reflexivity|]. unfold SloImageSize, header_of. cbn.
  pose proof (int32_at_range Header 48). pose proof (int32_at_range Header 52). nia.
Qed.

Lemma patch_length f p w :
  (p + length w <= length f)%nat -> length (patch f p w) = length f.
Proof.
  intros H. unfold patch. rewrite !length_app, length_firstn, length_skipn. lia.
Qed.

Lemma patch_nth_outside f p w k :
  (p + length w <= length f)%nat -> (k < p \/ p + length w <= k)%nat ->
  nth k (patch f p w) x00 = nth k f x00.
Proof.
  intros H Hk. unfold patch. destruct Hk as [Hk|Hk].
  - rewrite app_nth1 by (rewrite length_firstn; lia).
    rewrite nth_firstn. destruct (Nat.ltb_spec k p); [reflexivity|lia].
  - rewrite app_nth2 by (rewrite length_firstn; lia).
    rewrite app_nth2 by (rewrite length_firstn; lia).
    rewrite nth_skipn, length_firstn. f_equal. lia.
Qed.

(** C10. Two files of the same length that agree on every byte outside the
    segmentation-count field (bytes 48..51 of the header of the first slice
    record) are read to the same result. *)
Theorem NumSeg_never_used (rnd : Q -> Q) (f1 f2 : list byte) (h : VolHeader) :
  parse_header (firstn 2048 f1) = Ok h ->
  0 <= SloImageSize h -> 52 <= BscanHdrSize h ->
  Z.of_nat (length f1) < 2 ^ 63 ->
  length f1 = length f2 ->
  (forall k, (k < numseg_offset h \/ numseg_offset h + 4 <= k)%nat ->
             nth k f1 x00 = nth k f2 x00) ->
  read_vol_file rnd f1 = read_vol_file rnd f2.
Proof.
  intros Hh Hslo Hhdr Hmax Hlen Hk.
  destruct (parsed_header_ranges _ _ Hh) as [_ Hslo'].
  assert (numseg_offset h = Z.to_nat (data_start h + 48)) as Ep.
  { unfold numseg_offset, record_offset, data_start, SloImageSize. f_equal. ring. }
  assert (firstn 2048 f1 = firstn 2048 f2) as E1.
  { apply (agree_firstn x00); [exact Hlen|]. intros k Hlt. apply Hk. left.
    rewrite Ep. unfold data_start. lia. }
  assert (skipn (Z.to_nat (data_start h + 52)) f1
          = skipn (Z.to_nat (data_start h + 52)) f2) as E2.
  { apply (agree_skipn x00); [exact Hlen|]. intros k Hge. apply Hk. right.
    rewrite Ep. unfold data_start in *. lia. }
  unfold read_vol_file. f_equal. unfold read_bscans.
  rewrite !file_read_header. cbn [bind]. rewrite <- E1, Hh. cbn [bind].
  rewrite (assemble_agree f1 f2 h) by (assumption || lia).
  apply read_NumSeg_dropped. exact Hlen.
Qed.

Lemma NumSeg_never_used_witness :
  read_vol_file (fun q => q) example_file
  = read_vol_file (fun q => q) (patch example_file 2096 (le_bytes32 7)).
Proof.
  apply (NumSeg_never_used (fun q => q) example_file
           (patch example_file 2096 (le_bytes32 7)) example_header).
  - vm_compute. reflexivity.
  - vm_compute. discriminate.
  - vm_compute. discriminate.
  - vm_compute. reflexivity.
  - symmetry. apply patch_length. vm_compute. lia.
  - intros k Hk. symmetry. apply patch_nth_outside.
    + vm_compute. lia.
    + exact Hk.
Defined.

(** ** The contrast transform *)

Lemma stride_lookup {A} (c : nat) (d : list A) : forall k j,
  (0 < c)%nat -> stride c k d !! j = d !! (k + j * c)%nat.
Proof.
  induction d as [|x d IH]; intros k j Hc; [reflexivity|].
  destruct k as [|k]; cbn [stride].
  - destruct j as [|j]; [reflexivity|].
    cbn [lookup list_lookup]. rewrite IH by exact Hc.
    replace (0 + S j * c)%nat with (S (c - 1 + j * c)) by lia. reflexivity.
  - rewrite IH by exact Hc. reflexivity.
Qed.

Lemma stride_length {A} (c : nat) (d : list A) : forall k n,
  (0 < c)%nat -> length d = (k + n * c)%nat -> length (stride c k d) = n.
Proof.
  induction d as [|x d IH]; intros k n Hc Hlen; cbn [length] in Hlen.
  - destruct n; [reflexivity|]. cbn in Hlen. lia.
  - destruct k as [|k]; cbn [stride length].
    + destruct n as [|n]; [cbn in Hlen; lia|].
      f_equal. apply IH; [exact Hc|]. cbn in Hlen. lia.
    + apply IH; [exact Hc|]. lia.
Qed.

Lemma size_of_snoc sh c : size_of (sh ++ [c]) = (size_of sh * c)%nat.
Proof.
  unfold size_of. induction sh as [|a sh IH]; cbn [app fold_right]; [lia|].
  rewrite IH. lia.
Qed.

Lemma shape_split (sh : list nat) :
  sh <> [] -> sh = removelast sh ++ [List.last sh 0%nat].
Proof. apply app_removelast_last. Qed.

(** C5, as the claim states it, fails on an array of more than 3 axes
    whose last axis is empty: there is no channel 0, and the index
    raises. *)
Lemma log_volume_empty_axis_counterexample :
  ndim empty_channels = 4%nat
  /\ well_shaped empty_channels
  /\ log_volume sqrt empty_channels = Raise IndexError.
Proof. repeat split. Qed.

Lemma fourth_root (x : R) : (0 < x)%R -> sqrt (sqrt x) = Rpower x (/ 4).
Proof.
  intros Hx. replace (/ 4)%R with (/ 2 * / 2)%R by Lra.lra.
  rewrite <- Rpower_mult, !Rpower_sqrt; [reflexivity|exact Hx|].
  rewrite Rpower_sqrt by exact Hx. apply sqrt_lt_R0. exact Hx.
Qed.

(** C5, amended.  [log_volume] applies sqrt(sqrt(x)) to every element it
    keeps.  An array of at most 3 axes keeps its shape and all its
    elements.  An array of more than 3 axes whose last axis is not empty
    loses that axis and keeps channel 0 of it only: output element j is
    the transform of input element j*c, c the length of the last axis;
    with an empty last axis the call raises IndexError.  On floats the
    transform maps 0.0 to 0.0 and 1.0 to 1.0, and on the reals it is
    x^0.25 for positive x. *)
Theorem log_volume_spec :
  (forall (A : Type) (np_sqrt : A -> A) (a : ndarray A),
     ((ndim a <= 3)%nat ->
        log_volume np_sqrt a
        = Ok (mkArray (shape a) (map (fun x => np_sqrt (np_sqrt x)) (data a))))
     /\ ((3 < ndim a)%nat -> List.last (shape a) 0%nat = 0%nat ->
           log_volume np_sqrt a = Raise IndexError)
     /\ ((3 < ndim a)%nat -> (0 < List.last (shape a) 0)%nat -> well_shaped a ->
           exists out,
             log_volume np_sqrt a = Ok out
             /\ shape out = removelast (shape a)
             /\ well_shaped out
             /\ forall j, data out !! j
                          = (fun x => np_sqrt (np_sqrt x))
                              <$> (data a !! (j * List.last (shape a) 0)%nat)))
  /\ log_volume sqrt_f32 (mkArray [2]%nat [S754_zero false; one_f32])
     = Ok (mkArray [2]%nat [S754_zero false; one_f32])
  /\ log_volume sqrt_f64 (mkArray [2]%nat [S754_zero false; one_f64])
     = Ok (mkArray [2]%nat [S754_zero false; one_f64])
  /\ (forall (a : ndarray R) j x,
        (ndim a <= 3)%nat -> data a !! j = Some x -> (0 < x)%R ->
        exists out, log_volume sqrt a = Ok out
                    /\ data out !! j = Some (Rpower x (/ 4))).
Proof.
  split; [|split; [|split]].
  - intros A np_sqrt a. unfold log_volume. split; [|split].
    + intros Hn. destruct (Nat.ltb_spec 3 (ndim a)); [lia|]. reflexivity.
    + intros Hn Hc. destruct (Nat.ltb_spec 3 (ndim a)); [|lia].
      unfold channel0. rewrite Hc. reflexivity.
    + intros Hn Hc Hws. destruct (Nat.ltb_spec 3 (ndim a)); [|lia].
      unfold channel0.
      destruct (List.last (shape a) 0%nat) as [|c'] eqn:Ec; [lia|].
      cbn [bind]. eexists. split; [reflexivity|]. cbn [shape data].
      assert (shape a <> []) as Hne.
      { unfold ndim in Hn. destruct (shape a); [cbn in Hn; lia|discriminate]. }
      pose proof (shape_split (shape a) Hne) as Hsh. rewrite Ec in Hsh.
      split; [reflexivity|]. split.
      * unfold well_shaped in *. cbn [shape data]. rewrite length_map.
        apply stride_length; [lia|].
        rewrite Hws, Hsh at 1. rewrite size_of_snoc. reflexivity.
      * intros j. rewrite list_lookup_fmap, stride_lookup by lia. reflexivity.
  - vm_compute. reflexivity.
  - vm_compute. reflexivity.
  - intros a j x Hn Hj Hx. unfold log_volume.
    destruct (Nat.ltb_spec 3 (ndim a)); [lia|]. cbn [bind].
    eexists. split; [reflexivity|]. cbn [data].
    rewrite list_lookup_fmap, Hj. cbn. rewrite fourth_root by exact Hx. reflexivity.
Qed.

Lemma log_volume_spec_witness :
  exists out,
    log_volume sqrt (mkArray [1; 1; 2; 2]%nat [16; 0; 81; 0]%R) = Ok out
    /\ shape out = [1; 1; 2]%nat
    /\ data out !! 1%nat = Some (sqrt (sqrt 81)).
Proof.
  destruct log_volume_spec as [H _].
  destruct (H R sqrt (mkArray [1; 1; 2; 2]%nat [16; 0; 81; 0]%R)) as (_ & _ & H4).
  destruct H4 as (out & Ho & Hs & _ & He).
  - cbn. lia.
  - cbn. lia.
  - reflexivity.
  - exists out. split; [exact Ho|]. split; [exact Hs|]. rewrite He. reflexivity.
Defined.

(** ** Paths *)

Lemma rfind_from_app c s1 s2 i acc :
  rfind_from c (s1 +:+ s2) i acc
  = rfind_from c s2 (i + Z.of_nat (String.length s1)) (rfind_from c s1 i acc).
Proof.
  revert i acc. induction s1 as [|a s1 IH]; intros i acc.
  - cbn. rewrite Z.add_0_r. reflexivity.
  - change (String a s1 +:+ s2) with (String a (s1 +:+ s2)).
    cbn [rfind_from String.length]. rewrite IH. f_equal. lia.
Qed.

Lemma rfind_from_absent c s i acc : contains c s = false -> rfind_from c s i acc = acc.
Proof.
  revert i acc. induction s as [|a s IH]; intros i acc H; [reflexivity|].
  cbn in H. apply orb_false_iff in H as [Ha Hs]. cbn [rfind_from]. rewrite Ha.
  apply IH, Hs.
Qed.

Lemma contains_app c s1 s2 : contains c (s1 +:+ s2) = contains c s1 || contains c s2.
Proof.
  induction s1 as [|a s1 IH]; [reflexivity|].
  change (String a s1 +:+ s2) with (String a (s1 +:+ s2)).
  cbn [contains]. rewrite IH. apply orb_assoc.
Qed.

Lemma substring_prefix s1 s2 :
  String.substring 0 (String.length s1) (s1 +:+ s2) = s1.
Proof.
  induction s1 as [|a s1 IH].
  - change (EmptyString +:+ s2) with s2. destruct s2; reflexivity.
  - change (String a s1 +:+ s2) with (String a (s1 +:+ s2)).
    cbn [String.length substring]. f_equal. exact IH.
Qed.

Lemma substring_all s : String.substring 0 (String.length s) s = s.
Proof.
  induction s as [|a s IH]; [reflexivity|].
  cbn [String.length substring]. f_equal. exact IH.
Qed.

Lemma substring_suffix s1 s2 :
  String.substring (String.length s1) (String.length s2) (s1 +:+ s2) = s2.
Proof.
  induction s1 as [|a s1 IH].
  - change (EmptyString +:+ s2) with s2. apply substring_all.
  - change (String a s1 +:+ s2) with (String a (s1 +:+ s2)).
    cbn [String.length substring]. exact IH.
Qed.

Lemma length_app_string s1 s2 :
  String.length (s1 +:+ s2) = (String.length s1 + String.length s2)%nat.
Proof.
  induction s1 as [|a s1 IH]; [reflexivity|].
  change (String a s1 +:+ s2) with (String a (s1 +:+ s2)).
  cbn [String.length]. rewrite IH. reflexivity.
Qed.

Lemma splitext_plain stem ext :
  plain_name stem ext ->
  splitext (stem +:+ String "." ext) = (stem, String "." ext).
Proof.
  intros (Hs1 & Hd1 & Hs2 & Hd2). unfold splitext, rfind.
  rewrite !rfind_from_app.
  rewrite (rfind_from_absent "/" stem) by exact Hs1.
  cbn [rfind_from]. change (Ascii.eqb "." "/") with false. cbn iota.
  rewrite (rfind_from_absent "/" ext) by exact Hs2.
  change (Ascii.eqb "." ".") with true. cbn iota.
  rewrite (rfind_from_absent "." ext) by exact Hd2.
  rewrite Z.add_0_l.
  destruct (Z.ltb_spec (-1) (Z.of_nat (String.length stem))); [|lia].
  replace (Z.to_nat (-1 + 1)) with 0%nat by reflexivity.
  replace (Z.to_nat (Z.of_nat (String.length stem) - (-1 + 1))) with (String.length stem) by lia.
  rewrite Nat2Z.id, substring_prefix, Hd1. cbn [andb].
  f_equal. rewrite length_app_string.
  replace (String.length stem + String.length (String "." ext) - String.length stem)%nat
    with (String.length (String "." ext)) by lia.
  apply substring_suffix.
Qed.

Lemma endswith_plain stem ext : endswith (String "." ext) (stem +:+ String "." ext) = true.
Proof.
  unfold endswith. rewrite length_app_string.
  destruct (Nat.leb_spec (String.length (String "." ext))
              (String.length stem + String.length (String "." ext))); [|lia].
  replace (String.length stem + String.length (String "." ext)
           - String.length (String "." ext))%nat with (String.length stem) by lia.
  rewrite substring_suffix. apply String.eqb_refl.
Qed.

(** ** The batch converters *)

Lemma written_paths_app {F} (a b : list (event F)) :
  written_paths (a ++ b) = written_paths a ++ written_paths b.
Proof. apply omap_app. Qed.

Lemma count_reports_app {F} (a b : list (event F)) :
  count_reports (a ++ b) = (count_reports a + count_reports b)%nat.
Proof. unfold count_reports. rewrite List.filter_app, length_app. reflexivity. Qed.

Lemma written_paths_release {F} (l : list string) :
  written_paths (map (@ERelease F) l) = [].
Proof. induction l as [|p l IH]; [reflexivity|exact IH]. Qed.

Lemma count_reports_release {F} (l : list string) :
  count_reports (map (@ERelease F) l) = 0%nat.
Proof. induction l as [|p l IH]; [reflexivity|exact IH]. Qed.

Ltac norm_trace tr0 :=
  rewrite <- ?app_assoc; rewrite ?drop_all, ?drop_app_length;
  cbn [open_handles app]; rewrite ?String.eqb_refl;
  cbn [negb List.filter map app];
  subst tr0; rewrite <- ?app_assoc; cbn [app].

Section BatchFacts.

Context {P F : Type}.
Variable rnd : Q -> Q.
Variable f64_to_f32 : fval -> F.
Variable px_to_f32 : P -> F.
Variable sqrt32 : F -> F.
Variable fs_open : list (event F) -> string -> result (list byte).
Variable fs_makedirs : list (event F) -> string -> result unit.
Variable fs_write : list (event F) -> string -> ndarray F -> result unit.

#[local] Abbreviation convert_vol :=
  (convert_vol_file rnd f64_to_f32 sqrt32 fs_open fs_makedirs fs_write).
#[local] Abbreviation convert_reader := (convert_reader_file px_to_f32 sqrt32 fs_makedirs fs_write).

(** What one [.vol] file does to the world: either the six events of a
    conversion, with one write, or no write, a report that names the
    file, and the release of what the failed attempt left open. *)
Lemma convert_vol_file_outcome input_dir output_dir rel file tr :
  let p := path_join (walk_root input_dir rel) file in
  let d := path_join output_dir (relpath rel) in
  let t := path_join d (fst (splitext file) +:+ ".tiff") in
  (exists a,
     convert_vol input_dir output_dir rel file tr
     = (Ok tt, tr ++ [EPrint ("Converting: " +:+ file); EOpen p; EClose p;
                      EMakedirs d; EWrite t a; EPrint ("Saved: " +:+ t)]))
  \/ (exists evs e,
        convert_vol input_dir output_dir rel file tr
        = (Ok tt, tr ++ evs
                  ++ [EPrint ("Error processing " +:+ p +:+ ": " +:+ exn_name e)]
                  ++ map ERelease (open_handles evs []))
        /\ written_paths evs = [] /\ count_reports evs = 0%nat).
Proof.
  intros p d t.
  unfold convert_vol_file, try_except, bindM, emit, read_vol_file_io, makedirs, imsave, lift.
  fold p d t. set (tr0 := tr ++ [EPrint ("Converting: " +:+ file)]).
  destruct (fs_open tr0 p) as [bytes|e].
  2:{ right. exists [EPrint ("Converting: " +:+ file)], e. norm_trace tr0. repeat split. }
  destruct (read_bscans bytes) as [vol|e].
  2:{ right. exists [EPrint ("Converting: " +:+ file); EOpen p], e.
      norm_trace tr0. repeat split. }
  destruct (postprocess rnd vol) as [out|e].
  2:{ right. exists [EPrint ("Converting: " +:+ file); EOpen p; EClose p], e.
      norm_trace tr0. repeat split. }
  destruct (fs_makedirs _ d) as [[]|e].
  2:{ right. exists [EPrint ("Converting: " +:+ file); EOpen p; EClose p], e.
      norm_trace tr0. repeat split. }
  destruct (log_volume sqrt32 (astype f64_to_f32 out)) as [img|e].
  2:{ right. exists [EPrint ("Converting: " +:+ file); EOpen p; EClose p; EMakedirs d], e.
      norm_trace tr0. repeat split. }
  destruct (fs_write _ t img) as [[]|e].
  2:{ right. exists [EPrint ("Converting: " +:+ file); EOpen p; EClose p; EMakedirs d], e.
      norm_trace tr0. repeat split. }
  left. exists img. norm_trace tr0. reflexivity.
Qed.

(** What one file of a reader-based converter does: nothing at all when
    the reader cannot be built (the exception leaves the loop); else
    either the four events of a conversion, with one write, or no write
    and a report that names the file. *)
Lemma convert_reader_file_outcome lib_open input_dir output_dir rel file tr :
  let p := path_join (walk_root input_dir rel) file in
  let d := path_join output_dir (relpath rel) in
  let folder := path_join d (fst (splitext file)) in
  let t := path_join folder (fst (splitext file) +:+ ".tiff") in
  (exists e, lib_open tr p = Raise e
             /\ convert_reader lib_open input_dir output_dir rel file tr = (Raise e, tr))
  \/ (exists a,
        convert_reader lib_open input_dir output_dir rel file tr
        = (Ok tt, tr ++ [EMakedirs d; EMakedirs folder;
                         EPrint ("Saving OCT volume to " +:+ t); EWrite t a]))
  \/ (exists evs e,
        convert_reader lib_open input_dir output_dir rel file tr
        = (Ok tt, tr ++ evs
                  ++ [EPrint ("Error processing " +:+ p +:+ ": " +:+ exn_name e)])
        /\ written_paths evs = [] /\ count_reports evs = 0%nat).
Proof.
  intros p d folder t.
  unfold convert_reader_file, try_except, bindM, emit, makedirs, imsave, lift.
  fold p d folder t.
  destruct (lib_open tr p) as [img|e].
  2:{ left. exists e. split; reflexivity. }
  right. set (tr0 := tr) in *.
  destruct (read_slices img (seq 0 (num_slices img))) as [slices|e].
  2:{ right. exists [], e. norm_trace tr0. repeat split. }
  destruct (np_stack slices) as [vol|e].
  2:{ right. exists [], e. norm_trace tr0. repeat split. }
  destruct (fs_makedirs tr0 d) as [[]|e].
  2:{ right. exists [], e. norm_trace tr0. repeat split. }
  destruct (fs_makedirs _ folder) as [[]|e].
  2:{ right. exists [EMakedirs d], e. norm_trace tr0. repeat split. }
  destruct (log_volume sqrt32 (astype px_to_f32 vol)) as [out|e].
  2:{ right. exists [EMakedirs d; EMakedirs folder], e. norm_trace tr0. repeat split. }
  destruct (fs_write _ t out) as [[]|e].
  2:{ right. exists [EMakedirs d; EMakedirs folder;
                     EPrint ("Saving OCT volume to " +:+ t)], e.
      norm_trace tr0. repeat split. }
  left. exists out. norm_trace tr0. reflexivity.
Qed.

End BatchFacts.

(** C9, as the claim states it, fails for the two reader-based
    converters: they put the artifact in a folder of its own, named after
    the file, so [input_root/a/b/scan.e2e] is written to
    [output_root/a/b/scan/scan.tiff]. *)
Lemma reader_output_folder_counterexample :
  written_paths
    (snd (demo_process_e2e_files "in" "out" [(["a"; "b"], ["scan.e2e"])]%string []))
  = ["out/a/b/scan/scan.tiff"%string]
  /\ written_paths
       (snd (demo_process_fda_files "in" "out" [(["a"; "b"], ["scan.fda"])]%string []))
     = ["out/a/b/scan/scan.tiff"%string]
  /\ "out/a/b/scan/scan.tiff"%string <> "out/a/b/scan.tiff"%string.
Proof. repeat split; try (vm_compute; reflexivity). discriminate. Qed.

(** C9, amended.  Let [d] be the output root joined with the position of
    the file's directory under the input root, and let the file be
    [stem.ext].  The .vol converter writes at most one artifact for the
    file; when the conversion succeeds it is [d/stem.tiff], written after
    [d] has been created.  The reader-based converters (.e2e, .fda) write
    at most one artifact too; when the conversion succeeds it is
    [d/stem/stem.tiff], written after [d] and [d/stem] have been
    created. *)
Theorem output_path_mirrors {P F : Type} (rnd : Q -> Q) (f64_to_f32 : fval -> F)
    (px_to_f32 : P -> F) (sqrt32 : F -> F)
    (fs_open : list (event F) -> string -> result (list byte))
    (fs_makedirs : list (event F) -> string -> result unit)
    (fs_write : list (event F) -> string -> ndarray F -> result unit)
    (lib_open : list (event F) -> string -> result (reader P))
    (input_dir output_dir : string) (rel : list string) (stem ext : string)
    (tr : list (event F)) :
  plain_name stem ext ->
  let file := (stem +:+ String "." ext)%string in
  let d := path_join output_dir (relpath rel) in
  (ext = "vol"%string ->
     let run := convert_vol_file rnd f64_to_f32 sqrt32 fs_open fs_makedirs fs_write
                  input_dir output_dir rel file tr in
     (exists pre a post,
        run = (Ok tt, tr ++ pre ++ [EMakedirs d;
                                    EWrite (path_join d (stem +:+ ".tiff")) a] ++ post)
        /\ written_paths pre = [] /\ written_paths post = [])
     \/ (exists evs, run = (Ok tt, tr ++ evs) /\ written_paths evs = []))
  /\ (let run := convert_reader_file px_to_f32 sqrt32 fs_makedirs fs_write lib_open
                   input_dir output_dir rel file tr in
      (exists a,
         run = (Ok tt, tr ++ [EMakedirs d; EMakedirs (path_join d stem);
                  EPrint ("Saving OCT volume to "
                          +:+ path_join (path_join d stem) (stem +:+ ".tiff"));
                  EWrite (path_join (path_join d stem) (stem +:+ ".tiff")) a]))
      \/ (exists r evs, run = (r, tr ++ evs) /\ written_paths evs = [])).
Proof.
  intros Hname file d. split.
  - intros -> run. subst run.
    destruct (convert_vol_file_outcome rnd f64_to_f32 sqrt32 fs_open fs_makedirs
                fs_write input_dir output_dir rel file tr) as [(a & H)|(evs & e & H & Hw & _)].
    + left. unfold file in H. rewrite (splitext_plain stem "vol" Hname) in H.
      cbn [fst] in H. fold file d in H.
      exists [EPrint ("Converting: " +:+ file);
              EOpen (path_join (walk_root input_dir rel) file);
              EClose (path_join (walk_root input_dir rel) file)], a,
             [EPrint ("Saved: " +:+ path_join d (stem +:+ ".tiff"))].
      split; [exact H|]. split; reflexivity.
    + right. eexists. split; [exact H|].
      rewrite !written_paths_app, Hw, written_paths_release. reflexivity.
  - intros run. subst run.
    destruct (convert_reader_file_outcome px_to_f32 sqrt32 fs_makedirs fs_write lib_open
                input_dir output_dir rel file tr)
      as [(e & _ & H)|[(a & H)|(evs & e & H & Hw & _)]].
    + right. exists (Raise e), []. rewrite app_nil_r. split; [exact H|reflexivity].
    + left. unfold file in H. rewrite (splitext_plain stem ext Hname) in H.
      cbn [fst] in H. fold file d in H. exists a. exact H.
    + right. eexists _, _. split; [exact H|].
      unfold written_paths in *. rewrite omap_app, Hw. reflexivity.
Qed.

Lemma output_path_mirrors_witness :
  written_paths
    (snd (convert_vol_file (fun q : Q => q) (@erase fval) (fun u : unit => u)
            demo_open demo_makedirs demo_write "in" "out" ["a"; "b"]
            "scan.vol" []))%string
  = ["out/a/b/scan.tiff"%string].
Proof.
  destruct (output_path_mirrors (P := nat) (fun q : Q => q) (@erase fval) erase
              (fun u : unit => u) demo_open demo_makedirs demo_write demo_lib_open
              "in" "out" ["a"; "b"] "scan" "vol" [])%string as [Hvol _].
  - repeat split.
  - destruct (Hvol eq_refl) as [(pre & a & post & H & Hpre & Hpost)|(evs & H & _)].
    + vm_compute. reflexivity.
    + vm_compute. reflexivity.
Defined.

(** C7 at a failing input.  In [process_e2e_files] and
    [process_fda_files] the reader is built outside the [try]: when the
    constructor raises on the first file, the exception leaves the loop,
    nothing is reported and the second file is never converted.  On the
    same directory layout the .vol converter reports the bad file and goes
    on to the good one. *)
Theorem reader_failure_aborts_batch :
  demo_process_e2e_files "in" "out" [([], ["bad.e2e"; "good.e2e"])]%string []
  = (Raise ExternalError, [])
  /\ demo_process_fda_files "in" "out" [([], ["bad.fda"; "good.fda"])]%string []
     = (Raise ExternalError, [])
  /\ written_paths
       (snd (demo_process_e2e_files "in" "out" [([], ["good.e2e"])]%string []))
     = ["out/./good/good.tiff"%string]
  /\ (exists tr,
        demo_process_vol_files "in" "out" [([], ["bad.vol"; "good.vol"])]%string []
        = (Ok tt, tr)
        /\ In (EPrint "Error processing in/bad.vol: struct.error"%string) tr
        /\ written_paths tr = ["out/./good.tiff"%string]).
Proof.
  split; [vm_compute; reflexivity|]. split; [vm_compute; reflexivity|].
  split; [vm_compute; reflexivity|].
  eexists. split; [vm_compute; reflexivity|]. split; [|vm_compute; reflexivity].
  cbn. tauto.
Qed.

(** ** The file handle of the .vol converter *)

Lemma one_at_a_time_app {F} (a b : list (event F)) (held : list string) :
  one_at_a_time a held = true -> one_at_a_time b [] = true ->
  one_at_a_time (a ++ b) held = true.
Proof.
  revert held. induction a as [|e a IH]; intros held Ha Hb.
  - destruct held; [exact Hb|discriminate].
  - destruct e; cbn [one_at_a_time app] in *; try (apply IH; assumption).
    destruct held; [apply IH; assumption|discriminate].
Qed.

Lemma one_at_a_time_end {F} (tr : list (event F)) (held : list string) :
  one_at_a_time tr held = true -> open_handles tr held = [].
Proof.
  revert held. induction tr as [|e tr IH]; intros held H.
  - destruct held; [reflexivity|discriminate].
  - destruct e; cbn [one_at_a_time open_handles] in *; try (apply IH; assumption).
    destruct held; [apply IH; assumption|discriminate].
Qed.

Lemma one_at_a_time_open {F} (before after : list (event F)) (p : string)
    (held : list string) :
  one_at_a_time (before ++ EOpen p :: after) held = true ->
  open_handles before held = [].
Proof.
  revert held. induction before as [|e before IH]; intros held H.
  - cbn [app one_at_a_time] in H. destruct held; [reflexivity|discriminate].
  - destruct e; cbn [one_at_a_time open_handles app] in *; try (apply IH; assumption).
    destruct held; [apply IH; assumption|discriminate].
Qed.

Ltac check_handles :=
  cbn [one_at_a_time List.filter]; rewrite ?String.eqb_refl; reflexivity.

Section Handles.

Context {F : Type}.
Variable rnd : Q -> Q.
Variable f64_to_f32 : fval -> F.
Variable sqrt32 : F -> F.
Variable fs_open : list (event F) -> string -> result (list byte).
Variable fs_makedirs : list (event F) -> string -> result unit.
Variable fs_write : list (event F) -> string -> ndarray F -> result unit.

(** One [.vol] file, whatever the world answers: the loop body returns,
    and what it adds to the trace opens the file at most once and leaves
    it closed (line 51) or released (the end of the handler). *)
Lemma convert_vol_file_handles input_dir output_dir rel file tr :
  exists evs,
    convert_vol_file rnd f64_to_f32 sqrt32 fs_open fs_makedirs fs_write
      input_dir output_dir rel file tr = (Ok tt, tr ++ evs)
    /\ one_at_a_time evs [] = true.
Proof.
  pose (p := path_join (walk_root input_dir rel) file).
  pose (d := path_join output_dir (relpath rel)).
  pose (t := path_join d (fst (splitext file) +:+ ".tiff")).
  unfold convert_vol_file, try_except, bindM, emit, read_vol_file_io, makedirs, imsave, lift.
  fold p d t. set (tr0 := tr ++ [EPrint ("Converting: " +:+ file)]).
  destruct (fs_open tr0 p) as [bytes|e].
  2:{ eexists. norm_trace tr0. split; [reflexivity|check_handles]. }
  destruct (read_bscans bytes) as [vol|e].
  2:{ eexists. norm_trace tr0. split; [reflexivity|check_handles]. }
  destruct (postprocess rnd vol) as [out|e].
  2:{ eexists. norm_trace tr0. split; [reflexivity|check_handles]. }
  destruct (fs_makedirs _ d) as [[]|e].
  2:{ eexists. norm_trace tr0. split; [reflexivity|check_handles]. }
  destruct (log_volume sqrt32 (astype f64_to_f32 out)) as [img|e].
  2:{ eexists. norm_trace tr0. split; [reflexivity|check_handles]. }
  destruct (fs_write _ t img) as [[]|e].
  2:{ eexists. norm_trace tr0. split; [reflexivity|check_handles]. }
  eexists. norm_trace tr0. split; [reflexivity|check_handles].
Qed.

(** A loop whose body returns and holds its files one at a time does so
    as a whole. *)
Lemma for_each_one_at_a_time {A} (body : A -> M unit) (l : list A) :
  (forall x (tr : list (event F)), exists evs,
      body x tr = (Ok tt, tr ++ evs) /\ one_at_a_time evs [] = true) ->
  forall tr : list (event F), exists evs,
    for_each body l tr = (Ok tt, tr ++ evs) /\ one_at_a_time evs [] = true.
Proof.
  intros Hbody. induction l as [|x l IH]; intros tr.
  - exists []. rewrite app_nil_r. split; reflexivity.
  - destruct (Hbody x tr) as (e1 & H1 & C1). destruct (IH (tr ++ e1)) as (e2 & H2 & C2).
    exists (e1 ++ e2). cbn [for_each]. unfold bindM. rewrite H1, H2, app_assoc.
    split; [reflexivity|]. apply one_at_a_time_app; assumption.
Qed.

Lemma process_vol_files_one_at_a_time input_dir output_dir walk tr :
  exists evs,
    process_vol_files rnd f64_to_f32 sqrt32 fs_open fs_makedirs fs_write
      input_dir output_dir walk tr = (Ok tt, tr ++ evs)
    /\ one_at_a_time evs [] = true.
Proof.
  unfold process_vol_files. apply for_each_one_at_a_time.
  intros [rel files] tr'. apply for_each_one_at_a_time. intros file tr''.
  destruct (endswith ".vol" file).
  - apply convert_vol_file_handles.
  - exists []. rewrite app_nil_r. split; reflexivity.
Qed.

(** C8.  Whatever the files hold and whatever the file system answers,
    the loop body of [process_vol_files] returns for every file with the
    file it opened no longer open: [read_vol_file] closes it on line 51
    when the slice records were read, and when an exception is raised
    before, the file object is finalised as the handler drops the
    exception at the end of the [except] clause.  Over a whole walk, every
    [open] therefore finds the files opened before it closed or released,
    and no file is open when the batch ends. *)
Theorem vol_handle_released_before_next_file (input_dir output_dir : string) :
  (forall (rel : list string) (file : string) (tr : list (event F)),
     exists evs,
       convert_vol_file rnd f64_to_f32 sqrt32 fs_open fs_makedirs fs_write
         input_dir output_dir rel file tr = (Ok tt, tr ++ evs)
       /\ open_handles evs [] = [])
  /\ (forall (walk : list walk_entry) (tr : list (event F)),
        exists evs,
          process_vol_files rnd f64_to_f32 sqrt32 fs_open fs_makedirs fs_write
            input_dir output_dir walk tr = (Ok tt, tr ++ evs)
          /\ open_handles evs [] = []
          /\ (forall before p after,
                evs = before ++ EOpen p :: after -> open_handles before [] = [])).
Proof.
  split.
  - intros rel file tr.
    destruct (convert_vol_file_handles input_dir output_dir rel file tr) as (evs & H & C).
    exists evs. split; [exact H|]. apply one_at_a_time_end, C.
  - intros walk tr.
    destruct (process_vol_files_one_at_a_time input_dir output_dir walk tr) as (evs & H & C).
    exists evs. split; [exact H|]. split; [apply one_at_a_time_end, C|].
    intros before p after ->. apply (one_at_a_time_open before after p), C.
Qed.

End Handles.

(** The run on a truncated file followed by a well-formed one: the first
    file is released after its failure is reported and before the second is
    opened; the second is closed by [read_vol_file]. *)
Example vol_handles_demo_trace :
  exists a,
    demo_process_vol_files "in" "out" [([], ["bad.vol"; "good.vol"])]%string []
    = (Ok tt, [EPrint "Converting: bad.vol"; EOpen "in/bad.vol";
               EPrint "Error processing in/bad.vol: struct.error";
               ERelease "in/bad.vol";
               EPrint "Converting: good.vol"; EOpen "in/good.vol";
               EClose "in/good.vol"; EMakedirs "out/."; EWrite "out/./good.tiff" a;
               EPrint "Saved: out/./good.tiff"])%string.
Proof. eexists. vm_compute. reflexivity. Qed.

(** ** What a successful read implies *)

Lemma unpack_f_length w bs row : unpack_f w bs = Ok row -> length row = w.
Proof.
  unfold unpack_f. destruct (Nat.eqb_spec (length bs) (4 * w)) as [E|E]; [|discriminate].
  intros [= <-]. rewrite length_map. apply chunks4_length, E.
Qed.

Lemma read_bscan_length file h w i row :
  read_bscan file h w i = Ok row -> length row = w.
Proof.
  unfold read_bscan. destruct (file_seek _) as [pos|]; [|discriminate]. cbn [bind].
  destruct (file_read file pos (BsBlkSize h)) as [Bscan|]; [|discriminate]. cbn [bind].
  apply unpack_f_length.
Qed.

Lemma set_row_length {A} w i (row d : list A) :
  length row = w -> (i * w + w <= length d)%nat -> length (set_row w i row d) = length d.
Proof.
  intros Hr Hd. unfold set_row. rewrite !length_app, length_take, length_drop. lia.
Qed.

Lemma fill_bscans_length file h w idx : forall d d',
  fill_bscans file h w idx d = Ok d' ->
  Forall (fun i => (i * w + w <= length d)%nat) idx ->
  length d' = length d.
Proof.
  induction idx as [|i idx IH]; intros d d' H Hidx.
  - injection H as <-. reflexivity.
  - cbn [fill_bscans] in H. apply Forall_cons in Hidx as [Hi Hrest].
    destruct (read_bscan file h w (Z.of_nat i)) as [row|] eqn:E; [|discriminate].
    cbn [bind] in H. apply read_bscan_length in E.
    apply IH in H.
    + rewrite H. apply set_row_length; assumption.
    + rewrite set_row_length by assumption. exact Hrest.
Qed.

Lemma assemble_shape file h vol :
  assemble file h = Ok vol ->
  0 <= NumBscans h /\ 0 <= SizeZ h /\ 0 <= SizeX h
  /\ shape vol = [Z.to_nat (NumBscans h); Z.to_nat (SizeZ h); Z.to_nat (SizeX h)]
  /\ well_shaped vol.
Proof.
  unfold assemble, assemble_upto, np_full. cbn [forallb].
  destruct (Z.leb_spec 0 (NumBscans h)); [|discriminate].
  destruct (Z.leb_spec 0 (SizeZ h)); [|discriminate].
  destruct (Z.leb_spec 0 (SizeX h)); [|discriminate].
  cbn [andb bind data shape map].
  destruct (fill_bscans _ _ _ _ _) as [d|] eqn:E; [|discriminate].
  cbn [bind]. intros [= <-]. repeat split; try assumption.
  unfold well_shaped. cbn [data shape].
  apply fill_bscans_length in E.
  - rewrite E, length_replicate. reflexivity.
  - rewrite length_replicate. cbn [size_of fold_right]. apply Forall_forall.
    intros i Hi. apply list_elem_of_In, in_seq in Hi. nia.
Qed.

Lemma normalize_length rnd d d' :
  normalize rnd d = Ok d' -> length d' = length d /\ d <> [].
Proof.
  unfold normalize. destruct d as [|x xs]; [discriminate|].
  cbn [np_min np_max bind]. destruct (f_gtb _ _); intros [= <-].
  - split; [cbn [length]; f_equal; apply length_map|discriminate].
  - split; [reflexivity|discriminate].
Qed.

Lemma read_bscans_inv file vol :
  read_bscans file = Ok vol ->
  exists h, parse_header (firstn 2048 file) = Ok h
            /\ is_ok (read_NumSeg file h) = true
            /\ assemble file h = Ok vol.
Proof.
  unfold read_bscans. rewrite file_read_header. cbn [bind].
  destruct (parse_header (firstn 2048 file)) as [h|]; [|discriminate]. cbn [bind].
  destruct (read_NumSeg file h) as [n|] eqn:En; [|discriminate]. cbn [bind].
  intros H. exists h. rewrite En. repeat split. exact H.
Qed.

Lemma read_vol_file_inv (rnd : Q -> Q) (file : list byte) (out : ndarray fval) :
  read_vol_file rnd file = Ok out ->
  exists h,
    parse_header (firstn 2048 file) = Ok h
    /\ 1 <= NumBscans h /\ 1 <= SizeZ h /\ 1 <= SizeX h
    /\ shape out = [Z.to_nat (NumBscans h); Z.to_nat (SizeZ h); Z.to_nat (SizeX h)]
    /\ length (data out) = Z.to_nat (NumBscans h * SizeZ h * SizeX h).
Proof.
  unfold read_vol_file. destruct (read_bscans file) as [vol|] eqn:E; [|discriminate].
  cbn [bind]. unfold postprocess.
  destruct (normalize rnd (sentinel_cleanup (data vol))) as [d|] eqn:En; [|discriminate].
  cbn [bind]. intros [= <-]. cbn [shape data].
  apply read_bscans_inv in E as (h & Hh & _ & Ha).
  apply assemble_shape in Ha as (HN & HZ & HX & Hs & Hw).
  apply normalize_length in En as [Hl Hne].
  unfold sentinel_cleanup in Hl, Hne. rewrite length_map in Hl.
  unfold well_shaped in Hw. rewrite Hs in Hw. cbn [size_of fold_right] in Hw.
  assert (length (data vol) <> 0)%nat as Hpos.
  { destruct (data vol); [contradiction|discriminate]. }
  exists h. split; [exact Hh|].
  assert (1 <= NumBscans h /\ 1 <= SizeZ h /\ 1 <= SizeX h) as (H1 & H2 & H3).
  { rewrite Hw in Hpos. repeat split.
    - destruct (Z.eq_dec (NumBscans h) 0) as [E0|]; [rewrite E0 in Hpos; cbn in Hpos; lia|lia].
    - destruct (Z.eq_dec (SizeZ h) 0) as [E0|]; [rewrite E0 in Hpos; cbn in Hpos; lia|lia].
    - destruct (Z.eq_dec (SizeX h) 0) as [E0|]; [rewrite E0 in Hpos; cbn in Hpos; lia|lia]. }
  repeat split; try assumption.
  rewrite Hl, Hw, !Z2Nat.inj_mul by lia. lia.
Qed.

(** Whenever [read_vol_file] returns a volume, the header was parsed, its
    three sizes are at least 1, and the volume is a well-shaped array of
    shape [NumBscans, SizeZ, SizeX], so of NumBscans*SizeZ*SizeX
    elements. *)
Theorem read_vol_file_shape (rnd : Q -> Q) (file : list byte) (out : ndarray fval) :
  read_vol_file rnd file = Ok out ->
  exists h,
    parse_header (firstn 2048 file) = Ok h
    /\ 1 <= NumBscans h /\ 1 <= SizeZ h /\ 1 <= SizeX h
    /\ shape out = [Z.to_nat (NumBscans h); Z.to_nat (SizeZ h); Z.to_nat (SizeX h)]
    /\ length (data out) = Z.to_nat (NumBscans h * SizeZ h * SizeX h)
    /\ well_shaped out.
Proof.
  intros H. destruct (read_vol_file_inv rnd file out H) as (h & Hh & HN & HZ & HX & Hs & Hl).
  exists h. repeat split; try assumption.
  unfold well_shaped. rewrite Hl, Hs. cbn [size_of fold_right].
  rewrite !Z2Nat.inj_mul by lia. lia.
Qed.

(** A header whose SizeX, SizeZ or NumBscans is zero or negative makes
    [read_vol_file] raise: at the latest, the allocation refuses a negative
    dimension and the minimum refuses an empty volume. *)
Theorem read_vol_file_rejects_empty_geometry (rnd : Q -> Q) (file : list byte)
    (h : VolHeader) :
  parse_header (firstn 2048 file) = Ok h ->
  SizeX h <= 0 \/ SizeZ h <= 0 \/ NumBscans h <= 0 ->
  exists e, read_vol_file rnd file = Raise e.
Proof.
  intros Hh Hbad. destruct (read_vol_file rnd file) as [out|e] eqn:E; [|eauto].
  apply read_vol_file_inv in E as (h' & Hh' & H1 & H2 & H3 & _).
  rewrite Hh in Hh'. injection Hh' as <-. lia.
Qed.

Lemma read_bscan_fits file h w i row :
  0 <= SizeX h -> 0 <= SizeZ h -> 0 <= BscanHdrSize h ->
  (0 < w)%nat -> w = (Z.to_nat (SizeZ h) * Z.to_nat (SizeX h))%nat ->
  0 <= i -> - 2 ^ 63 <= data_start h -> i * BsBlkSize h < 2 ^ 63 ->
  data_start h + i * BsBlkSize h < 2 ^ 63 ->
  read_bscan file h w i = Ok row ->
  0 <= data_start h + i * BsBlkSize h
  /\ data_start h + i * BsBlkSize h + BsBlkSize h <= Z.of_nat (length file).
Proof.
  intros HX HZ HH Hw Ew Hi Hlo Hib Hpos.
  assert (0 <= SizeX h * SizeZ h * 4) as Hpay by (repeat apply Z.mul_nonneg_nonneg; lia).
  unfold read_bscan. unfold BsBlkSize in *.
  set (blk := BscanHdrSize h + SizeX h * SizeZ h * 4) in *.
  assert (0 <= i * blk) by (apply Z.mul_nonneg_nonneg; unfold blk; lia).
  rewrite (wrap64_small (i * blk)) by lia. rewrite wrap64_small by lia.
  unfold file_seek. destruct (Z.ltb_spec (data_start h + i * blk) 0); [discriminate|].
  cbn [bind]. unfold file_read.
  destruct (Z.eqb_spec blk (-1)); [unfold blk in *; lia|].
  destruct (Z.ltb_spec blk 0); [discriminate|].
  destruct (Z.leb_spec (2 ^ 63) blk); [discriminate|].
  cbn [bind]. unfold unpack_f.
  match goal with |- context [(?a =? ?b)%nat] => destruct (Nat.eqb_spec a b) as [E|E] end;
    [|discriminate].
  intros _. rewrite py_slice_length in E by lia.
  rewrite length_firstn, length_skipn in E.
  assert (4 * w = Z.to_nat (SizeX h * SizeZ h * 4))%nat as E4.
  { rewrite !Z2Nat.inj_mul by lia. change (Z.to_nat 4) with 4%nat. lia. }
  lia.
Qed.

Lemma fill_bscans_fits file h w :
  0 <= SizeX h -> 0 <= SizeZ h -> 0 <= BscanHdrSize h ->
  (0 < w)%nat -> w = (Z.to_nat (SizeZ h) * Z.to_nat (SizeX h))%nat ->
  0 <= data_start h -> Z.of_nat (length file) < 2 ^ 63 ->
  forall n a d d',
    data_start h + Z.of_nat a * BsBlkSize h < 2 ^ 63 ->
    fill_bscans file h w (seq a (S n)) d = Ok d' ->
    0 <= data_start h + Z.of_nat a * BsBlkSize h
    /\ data_start h + Z.of_nat (a + S n) * BsBlkSize h <= Z.of_nat (length file).
Proof.
  intros HX HZ HH Hw Ew Hlo Hmax.
  assert (0 <= BsBlkSize h) as Hblk.
  { unfold BsBlkSize. assert (0 <= SizeX h * SizeZ h * 4)
      by (repeat apply Z.mul_nonneg_nonneg; lia). lia. }
  assert (forall a : nat, 0 <= Z.of_nat a * BsBlkSize h) as Hab
    by (intros a; apply Z.mul_nonneg_nonneg; lia).
  induction n as [|n IH]; intros a d d' Ha H.
  - cbn [seq fill_bscans] in H. pose proof (Hab a).
    destruct (read_bscan file h w (Z.of_nat a)) as [row|] eqn:E; [|discriminate].
    apply read_bscan_fits in E; try assumption; lia.
  - change (seq a (S (S n))) with (a :: seq (S a) (S n)) in H. cbn [fill_bscans] in H.
    pose proof (Hab a).
    destruct (read_bscan file h w (Z.of_nat a)) as [row|] eqn:E; [|discriminate].
    cbn [bind] in H. apply read_bscan_fits in E; try assumption; try lia.
    apply IH in H; [|lia].
    split; [lia|]. replace (a + S (S n))%nat with (S a + S n)%nat by lia. lia.
Qed.

Lemma read_vol_file_success_holds_records (rnd : Q -> Q) (file : list byte)
    (h : VolHeader) (out : ndarray fval) :
  parse_header (firstn 2048 file) = Ok h ->
  0 <= BscanHdrSize h -> Z.of_nat (length file) < 2 ^ 63 ->
  read_vol_file rnd file = Ok out ->
  holds_records file h.
Proof.
  intros Hh HH Hmax Hr.
  destruct (read_vol_file_inv rnd file out Hr) as (h' & Hh' & HN & HZ & HX & _).
  rewrite Hh in Hh'. injection Hh' as <-.
  unfold read_vol_file in Hr. destruct (read_bscans file) as [vol|] eqn:E; [|discriminate].
  apply read_bscans_inv in E as (h' & Hh' & _ & Ha).
  rewrite Hh in Hh'. injection Hh' as <-.
  destruct (parsed_header_ranges _ _ Hh) as [Hof Hslo].
  assert (- 2 ^ 62 <= SloImageSize h) as Hslo'.
  { rewrite Hof. unfold SloImageSize, header_of. cbn.
    pose proof (int32_at_range (firstn 2048 file) 48).
    pose proof (int32_at_range (firstn 2048 file) 52). nia. }
  unfold assemble, assemble_upto in Ha. rewrite np_full_ok in Ha by lia. cbn [bind data shape] in Ha.
  destruct (fill_bscans _ _ _ _ _) as [d|] eqn:Ef; [|discriminate].
  assert (exists n, Z.to_nat (NumBscans h) = S n) as [n En] by (exists (Z.to_nat (NumBscans h) - 1)%nat; lia).
  rewrite En in Ef.
  assert (0 <= data_start h) as Hstart.
  { pose proof Ef as Ef0. cbn [seq fill_bscans] in Ef0.
    destruct (read_bscan file h _ (Z.of_nat 0)) as [row|] eqn:E0; [|discriminate].
    apply read_bscan_fits in E0; try lia; try reflexivity; unfold data_start; lia. }
  apply fill_bscans_fits in Ef; try reflexivity;
    try (change (Z.of_nat 0) with 0; unfold data_start in *; lia).
  unfold holds_records, record_offset. unfold data_start, SloImageSize, BsBlkSize in *.
  replace (Z.of_nat (0 + S n)) with (NumBscans h) in Ef by lia.
  repeat split; lia.
Qed.

(** A truncated file never yields a volume: when the record header size
    is not negative and the file ends before the last declared slice
    record does, [read_vol_file] raises. *)
Theorem read_vol_file_truncated (rnd : Q -> Q) (file : list byte) (h : VolHeader) :
  parse_header (firstn 2048 file) = Ok h ->
  0 <= BscanHdrSize h -> Z.of_nat (length file) < 2 ^ 63 ->
  Z.of_nat (length file) < record_offset h (NumBscans h) ->
  exists e, read_vol_file rnd file = Raise e.
Proof.
  intros Hh HH Hmax Hshort. destruct (read_vol_file rnd file) as [out|e] eqn:E; [|eauto].
  apply (read_vol_file_success_holds_records rnd file h out Hh HH Hmax) in E.
  destruct E as (_ & _ & _ & _ & _ & Hfit & _). lia.
Qed.

Lemma read_vol_file_shape_witness :
  exists out,
    read_vol_file (fun q : Q => q) example_file = Ok out
    /\ shape out = [2; 3; 4]%nat /\ length (data out) = 24%nat.
Proof.
  destruct (read_vol_file (fun q : Q => q) example_file) as [out|e] eqn:E.
  - destruct (read_vol_file_shape _ _ _ E) as (h & Hh & _ & _ & _ & Hs & Hl & _).
    vm_compute in Hh. injection Hh as <-.
    exists out. split; [reflexivity|]. split; [exact Hs|exact Hl].
  - vm_compute in E. discriminate.
Defined.

Lemma read_vol_file_rejects_empty_geometry_witness :
  exists e, read_vol_file (fun q : Q => q) no_bscan_file = Raise e.
Proof.
  apply (read_vol_file_rejects_empty_geometry (fun q : Q => q) no_bscan_file
           (mkVolHeader 4 0 3 0 0 64)).
  - vm_compute. reflexivity.
  - right. right. cbn. lia.
Defined.

Lemma read_vol_file_truncated_witness :
  exists e, read_vol_file (fun q : Q => q) truncated_file = Raise e.
Proof.
  apply (read_vol_file_truncated (fun q : Q => q) truncated_file example_header).
  - vm_compute. reflexivity.
  - cbn. lia.
  - vm_compute. reflexivity.
  - vm_compute. reflexivity.
Defined.

(** ** The range of the result *)

Lemma f32_exponent_range u : 0 <= f32_exponent u <= 255.
Proof.
  unfold f32_exponent.
  change (Z.land (Z.shiftr u 23) 255) with (Z.land (Z.shiftr u 23) (Z.ones 8)).
  rewrite Z.land_ones by lia. pose proof (Z.mod_pos_bound (Z.shiftr u 23) (2 ^ 8) ltac:(lia)). lia.
Qed.

Lemma scale2_grid m e : -149 <= e -> binary32_value (FFin (scale2 m e)).
Proof.
  intros He. cbn [binary32_value]. unfold scale2.
  exists (m * 2 ^ (e + 149)). rewrite Qred_correct.
  destruct (Z.leb_spec 0 e).
  - unfold Qeq. cbn [Qnum Qden]. rewrite Pos2Z.inj_pow, Z.pow_add_r by lia. lia.
  - unfold Qeq. cbn [Qnum Qden]. rewrite Pos2Z.inj_pow.
    rewrite Z2Pos.id by (apply Z.pow_pos_nonneg; lia).
    replace (Z.pos 2 ^ Z.pos 149) with (2 ^ (e + 149) * 2 ^ (- e)).
    + ring.
    + rewrite <- Z.pow_add_r by lia. f_equal. lia.
Qed.

Lemma decode_f32_grid u :
  is_finite (decode_f32 u) = true -> binary32_value (decode_f32 u).
Proof.
  unfold decode_f32. pose proof (f32_exponent_range u) as He.
  destruct (Z.eqb_spec (f32_exponent u) 255).
  - destruct (f32_fraction u =? 0); discriminate.
  - destruct (Z.eqb_spec (f32_exponent u) 0); intros _; apply scale2_grid; lia.
Qed.

Lemma unpack_f_decoded w bs row : unpack_f w bs = Ok row -> Forall decoded row.
Proof.
  unfold unpack_f. destruct (_ =? _)%nat; [|discriminate]. intros [= <-].
  apply Forall_forall. intros v Hv. apply list_elem_of_In, in_map_iff in Hv as (c & <- & _).
  right. eauto.
Qed.

Lemma fill_bscans_decoded file h w idx : forall d d',
  fill_bscans file h w idx d = Ok d' -> Forall decoded d -> Forall decoded d'.
Proof.
  induction idx as [|i idx IH]; intros d d' H Hd.
  - injection H as <-. exact Hd.
  - cbn [fill_bscans] in H.
    destruct (read_bscan file h w (Z.of_nat i)) as [row|] eqn:E; [|discriminate].
    cbn [bind] in H. apply (IH _ _ H). unfold set_row.
    unfold read_bscan in E. destruct (file_seek _); [|discriminate]. cbn [bind] in E.
    destruct (file_read _ _ _); [|discriminate]. cbn [bind] in E.
    apply unpack_f_decoded in E.
    apply Forall_app. split; [apply Forall_take, Hd|].
    apply Forall_app. split; [exact E|apply Forall_drop, Hd].
Qed.

Lemma assemble_decoded file h vol : assemble file h = Ok vol -> Forall decoded (data vol).
Proof.
  unfold assemble, assemble_upto. destruct (np_full _ _) as [b|] eqn:Eb; [|discriminate]. cbn [bind].
  destruct (fill_bscans _ _ _ _ _) as [d|] eqn:E; [|discriminate]. cbn [bind].
  intros [= <-]. cbn [data]. apply (fill_bscans_decoded _ _ _ _ _ _ E).
  unfold np_full in Eb. destruct (forallb _ _); [|discriminate]. injection Eb as <-.
  cbn [data]. apply Forall_replicate. left. reflexivity.
Qed.

Lemma decoded_grid v : decoded v -> is_finite v = true -> binary32_value v.
Proof.
  intros [->|[u ->]] Hf.
  - exists (- 2 ^ 149). reflexivity.
  - apply decode_f32_grid, Hf.
Qed.

Lemma clean_elem_grid v :
  decoded v -> v <> FNaN -> v <> FInf true -> binary32_value (clean_elem v).
Proof.
  intros Hd Hn Hi. unfold clean_elem.
  destruct (f_geb v sentinel_threshold) eqn:E.
  - exists 0. reflexivity.
  - destruct v as [|[]|q]; try contradiction; try discriminate.
    apply decoded_grid; [exact Hd|reflexivity].
Qed.

Lemma not_gt_constant d qm qM :
  (forall q, In (FFin q) d -> (qm <= q)%Q) -> (forall q, In (FFin q) d -> (q <= qM)%Q) ->
  f_gtb (FFin qM) (FFin qm) = false ->
  forall q, In (FFin q) d -> (q == qm)%Q.
Proof.
  intros Hlo Hhi Hgt q Hq. unfold f_gtb, f_ltb in Hgt. cbn [f_leb] in Hgt.
  apply negb_false_iff, Qle_bool_iff in Hgt.
  pose proof (Hlo q Hq). pose proof (Hhi q Hq). lra.
Qed.

(** The range of what [read_vol_file] returns.  When the payload holds
    no NaN and no minus infinity, the returned volume either lies in
    [0, 1] elementwise, or is the cleaned volume itself, all of whose
    elements are then equal (a constant volume is not rescaled). *)
Theorem read_vol_file_range (rnd : Q -> Q) (file : list byte) (raw out : ndarray fval) :
  rounding rnd ->
  read_bscans file = Ok raw ->
  Forall (fun v => v <> FNaN /\ v <> FInf true) (data raw) ->
  read_vol_file rnd file = Ok out ->
  Forall in_unit (data out)
  \/ (data out = sentinel_cleanup (data raw)
      /\ exists c, Forall (fun v => exists q, v = FFin q /\ (q == c)%Q) (data out)).
Proof.
  intros Hrnd Hraw Hgood Hout.
  unfold read_vol_file in Hout. rewrite Hraw in Hout. cbn [bind] in Hout.
  unfold postprocess in Hout.
  destruct (normalize rnd (sentinel_cleanup (data raw))) as [d|] eqn:En; [|discriminate].
  cbn [bind] in Hout. injection Hout as <-. cbn [data].
  apply read_bscans_inv in Hraw as (h & _ & _ & Ha). apply assemble_decoded in Ha.
  assert (Forall binary32_value (sentinel_cleanup (data raw))) as Hgrid.
  { unfold sentinel_cleanup. apply Forall_fmap. rewrite Forall_forall in *.
    intros v Hv. destruct (Hgood v Hv). apply clean_elem_grid; auto. }
  set (c := sentinel_cleanup (data raw)) in *.
  destruct (np_min c) as [m|] eqn:Em.
  2:{ unfold normalize in En. rewrite Em in En. discriminate. }
  destruct (np_max c) as [M|] eqn:EM.
  2:{ unfold normalize in En. rewrite Em, EM in En. discriminate. }
  destruct (f_gtb M m) eqn:Eg.
  - left. rewrite (normalize_when_gt rnd c m M Em EM Eg) in En. injection En as <-.
    apply normalized_all_in_unit; assumption.
  - right. rewrite (normalize_when_not_gt rnd c m M Em EM Eg) in En.
    injection En as <-. split; [reflexivity|].
    assert (Forall (fun v => is_finite v = true) c) as Hfin.
    { eapply Forall_impl; [exact Hgrid|]. apply binary32_value_finite. }
    destruct (np_min_finite c m Hfin Em) as (qm & -> & _ & Hlo).
    destruct (np_max_finite c M Hfin EM) as (qM & -> & _ & Hhi).
    exists qm. apply Forall_forall. intros v Hv.
    pose proof (proj1 (Forall_forall _ _) Hfin v Hv) as Hf.
    destruct v as [| |q]; try discriminate. exists q. split; [reflexivity|].
    apply (not_gt_constant c qm qM Hlo Hhi Eg). apply list_elem_of_In, Hv.
Qed.

Lemma fold_min_nan xs : fold_left f_min xs FNaN = FNaN.
Proof. induction xs as [|y xs IH]; [reflexivity|]. cbn [fold_left]. exact IH. Qed.

Lemma fold_max_nan xs : fold_left f_max xs FNaN = FNaN.
Proof. induction xs as [|y xs IH]; [reflexivity|]. cbn [fold_left]. exact IH. Qed.

Lemma fold_min_has_nan xs : forall x, In FNaN xs -> fold_left f_min xs x = FNaN.
Proof.
  induction xs as [|y xs IH]; intros x Hin; [destruct Hin|].
  destruct Hin as [->|H].
  - cbn [fold_left]. replace (f_min x FNaN) with FNaN by (destruct x; reflexivity).
    apply fold_min_nan.
  - cbn [fold_left]. apply IH, H.
Qed.

Lemma np_min_nan d : In FNaN d -> np_min d = Ok FNaN.
Proof.
  destruct d as [|x xs]; [intros []|]. intros [->|H]; cbn [np_min]; f_equal.
  - apply fold_min_nan.
  - apply fold_min_has_nan, H.
Qed.

(** A NaN anywhere in the volume turns the normalisation off: the
    minimum is NaN, the test [max_val > min_val] is false, and the volume
    is returned as it is. *)
Theorem normalize_nan_unchanged (rnd : Q -> Q) (d : list fval) :
  In FNaN d -> normalize rnd d = Ok d.
Proof.
  intros H. unfold normalize. rewrite (np_min_nan d H). cbn [bind].
  destruct (np_max d) as [M|] eqn:E.
  - cbn [bind]. replace (f_gtb M FNaN) with false by (destruct M; reflexivity). reflexivity.
  - destruct d; [destruct H|discriminate].
Qed.

(** After a normalisation that took place on finite values, the smallest
    element of the result is 0 and the largest is 1. *)
Theorem normalize_extremes (rnd : Q -> Q) (d : list fval) (m M : fval) :
  rounding rnd -> Forall binary32_value d ->
  np_min d = Ok m -> np_max d = Ok M -> f_gtb M m = true ->
  exists out lo hi,
    normalize rnd d = Ok out
    /\ np_min out = Ok (FFin lo) /\ (lo == 0)%Q
    /\ np_max out = Ok (FFin hi) /\ (hi == 1)%Q.
Proof.
  intros Hrnd Hgrid Hm HM Hgt.
  pose proof (normalize_when_gt rnd d m M Hm HM Hgt) as Hn.
  pose proof (normalized_all_in_unit rnd d m M Hrnd Hgrid Hm HM Hgt) as Hu.
  set (g := fun v => f_div rnd (f_sub rnd v m) (f_sub rnd M m)) in *.
  assert (Forall (fun v => is_finite v = true) d) as Hfin.
  { eapply Forall_impl; [exact Hgrid|]. apply binary32_value_finite. }
  destruct (np_min_finite d m Hfin Hm) as (qm & -> & Hinm & Hlo).
  destruct (np_max_finite d M Hfin HM) as (qM & -> & HinM & Hhi).
  assert (qm < qM)%Q as Hlt.
  { unfold f_gtb, f_ltb in Hgt. cbn [f_leb] in Hgt.
    apply negb_true_iff in Hgt. apply Qnot_le_lt. intros Hc.
    apply Qle_bool_iff in Hc. congruence. }
  assert (tiny <= qM - qm)%Q as Hgap.
  { rewrite Forall_forall in Hgrid.
    apply grid_gap; [apply Hgrid, list_elem_of_In, Hinm
                    |apply Hgrid, list_elem_of_In, HinM|exact Hlt]. }
  destruct Hrnd as (Hmono & H0 & H1 & Ht).
  assert (0 < rnd (qM - qm))%Q as Hb.
  { apply Qlt_le_trans with tiny; [apply tiny_pos|]. rewrite <- Ht. apply Hmono, Hgap. }
  assert (forall a b, (a == b)%Q -> (rnd a == rnd b)%Q) as Hproper.
  { intros a b Hab. apply Qle_antisym; apply Hmono; lra. }
  assert (exists z, g (FFin qm) = FFin z /\ (z == 0)%Q) as (z & Hz & Hz0).
  { unfold g. cbn [f_sub f_div]. unfold q_zero.
    destruct (Qeq_bool (rnd (qM - qm)%Q) 0%Q) eqn:E; [apply Qeq_bool_iff in E; lra|].
    eexists. split; [reflexivity|]. rewrite <- H0. apply Hproper.
    rewrite (Hproper (qm - qm)%Q 0%Q) by lra. rewrite H0.
    unfold Qdiv. lra. }
  assert (exists o, g (FFin qM) = FFin o /\ (o == 1)%Q) as (o & Ho & Ho1).
  { unfold g. cbn [f_sub f_div]. unfold q_zero.
    destruct (Qeq_bool (rnd (qM - qm)%Q) 0%Q) eqn:E; [apply Qeq_bool_iff in E; lra|].
    eexists. split; [reflexivity|]. rewrite <- H1. apply Hproper.
    unfold Qdiv. apply Qmult_inv_r. lra. }
  assert (Forall (fun v => is_finite v = true) (map g d)) as Hfin'.
  { eapply Forall_impl; [exact Hu|]. intros [| |q]; cbn; tauto. }
  destruct (np_min (map g d)) as [lo|] eqn:Elo; [|destruct d; [destruct Hinm|discriminate]].
  destruct (np_max (map g d)) as [hi|] eqn:Ehi; [|destruct d; [destruct Hinm|discriminate]].
  destruct (np_min_finite _ _ Hfin' Elo) as (ql & -> & Hinl & Hlol).
  destruct (np_max_finite _ _ Hfin' Ehi) as (qh & -> & Hinh & Hhih).
  rewrite Forall_forall in Hu.
  pose proof (Hu _ (proj2 (list_elem_of_In _ _) Hinl)) as Hul.
  pose proof (Hu _ (proj2 (list_elem_of_In _ _) Hinh)) as Huh.
  cbn [in_unit] in Hul, Huh.
  assert (In (FFin z) (map g d)) as Hzin by (rewrite <- Hz; apply in_map, Hinm).
  assert (In (FFin o) (map g d)) as Hoin by (rewrite <- Ho; apply in_map, HinM).
  pose proof (Hlol z Hzin). pose proof (Hhih o Hoin).
  exists (map g d), ql, qh. split; [exact Hn|].
  split; [exact Elo|]. split; [lra|]. split; [exact Ehi|lra].
Qed.

Lemma read_vol_file_range_witness :
  exists out,
    read_vol_file (fun q : Q => q) example_file = Ok out
    /\ Forall in_unit (data out).
Proof.
  destruct (read_bscans example_file) as [raw|] eqn:Er; [|vm_compute in Er; discriminate].
  destruct (read_vol_file (fun q : Q => q) example_file) as [out|] eqn:Eo;
    [|vm_compute in Eo; discriminate].
  exists out. split; [reflexivity|].
  destruct (read_vol_file_range (fun q : Q => q) example_file raw out
              identity_rounding Er) as [H|[H _]].
  - vm_compute in Er. injection Er as <-. cbn [data].
    repeat (constructor; [split; discriminate|]). constructor.
  - exact Eo.
  - exact H.
  - vm_compute in Eo. injection Eo as <-. vm_compute in Er. injection Er as <-.
    vm_compute in H. discriminate.
Defined.

Lemma normalize_nan_unchanged_witness :
  normalize (fun q : Q => q) [FFin 2; FNaN; FFin 1] = Ok [FFin 2; FNaN; FFin 1].
Proof.
  apply (normalize_nan_unchanged (fun q : Q => q) [FFin 2; FNaN; FFin 1]).
  right. left. reflexivity.
Defined.

Lemma normalize_extremes_witness :
  exists out lo hi,
    normalize (fun q : Q => q) [FFin (-1); FFin 0; FFin 3] = Ok out
    /\ np_min out = Ok (FFin lo) /\ (lo == 0)%Q
    /\ np_max out = Ok (FFin hi) /\ (hi == 1)%Q.
Proof.
  apply (normalize_extremes (fun q : Q => q) [FFin (-1); FFin 0; FFin 3]
           (FFin (-1)) (FFin 3) identity_rounding).
  - repeat constructor; cbn [binary32_value];
      [exists (- 2 ^ 149)|exists 0|exists (3 * 2 ^ 149)]; reflexivity.
  - reflexivity.
  - reflexivity.
  - reflexivity.
Defined.

(** ** The batch as a whole *)

Lemma report_counts {F} (s : string) :
  written_paths [@EPrint F ("Error processing " +:+ s)] = []
  /\ count_reports [@EPrint F ("Error processing " +:+ s)] = 1%nat.
Proof. split; reflexivity. Qed.

Lemma log_volume_at_most_3 {A} (np_sqrt : A -> A) (a : ndarray A) :
  (ndim a <= 3)%nat ->
  log_volume np_sqrt a
  = Ok (mkArray (shape a) (map (fun x => np_sqrt (np_sqrt x)) (data a))).
Proof.
  intros Hn. unfold log_volume. destruct (Nat.ltb_spec 3 (ndim a)); [lia|]. reflexivity.
Qed.

Section BatchAccounting.

Context {P F : Type}.
Variable rnd : Q -> Q.
Variable f64_to_f32 : fval -> F.
Variable px_to_f32 : P -> F.
Variable sqrt32 : F -> F.
Variable fs_open : list (event F) -> string -> result (list byte).
Variable fs_makedirs : list (event F) -> string -> result unit.
Variable fs_write : list (event F) -> string -> ndarray F -> result unit.

(** A loop whose body only appends, and accounts for one file each time
    it writes or reports, accounts for all the files it is run on. *)
Lemma for_each_accounts {A} (body : A -> M unit) (counts : A -> nat) (l : list A) :
  (forall x tr, exists evs,
      body x tr = (Ok tt, tr ++ evs)
      /\ (length (written_paths evs) + count_reports evs = counts x)%nat) ->
  forall tr : list (event F), exists evs,
    for_each body l tr = (Ok tt, tr ++ evs)
    /\ (length (written_paths evs) + count_reports evs = list_sum (map counts l))%nat.
Proof.
  intros Hbody. induction l as [|x l IH]; intros tr.
  - exists []. rewrite app_nil_r. split; reflexivity.
  - destruct (Hbody x tr) as (e1 & H1 & C1). destruct (IH (tr ++ e1)) as (e2 & H2 & C2).
    exists (e1 ++ e2). cbn [for_each]. unfold bindM. rewrite H1, H2, app_assoc.
    split; [reflexivity|]. rewrite written_paths_app, count_reports_app, length_app.
    assert (list_sum (map counts (x :: l)) = (counts x + list_sum (map counts l))%nat)
      as -> by reflexivity.
    lia.
Qed.

Lemma list_sum_filter {A} (p : A -> bool) (l : list A) :
  list_sum (map (fun x => if p x then 1%nat else 0%nat) l) = length (List.filter p l).
Proof.
  induction l as [|x l IH]; [reflexivity|].
  assert (forall (f : A -> nat), list_sum (map f (x :: l)) = (f x + list_sum (map f l))%nat)
    as -> by reflexivity.
  rewrite IH. cbn [List.filter]. destruct (p x); reflexivity.
Qed.

Lemma convert_vol_file_accounts input_dir output_dir rel file tr :
  exists evs,
    convert_vol_file rnd f64_to_f32 sqrt32 fs_open fs_makedirs fs_write
      input_dir output_dir rel file tr = (Ok tt, tr ++ evs)
    /\ (length (written_paths evs) + count_reports evs = 1)%nat.
Proof.
  destruct (convert_vol_file_outcome rnd f64_to_f32 sqrt32 fs_open fs_makedirs fs_write
              input_dir output_dir rel file tr) as [(a & H)|(evs & e & H & Hw & Hc)].
  - eexists. split; [exact H|]. reflexivity.
  - eexists. split; [exact H|].
    rewrite !written_paths_app, !count_reports_app, !length_app, Hw, Hc,
      written_paths_release, count_reports_release.
    destruct (report_counts (F := F) (path_join (walk_root input_dir rel) file
                                      +:+ ": " +:+ exn_name e)) as [-> ->].
    reflexivity.
Qed.

(** [process_vol_files] never raises, only adds to what happened
    before, and accounts for every [.vol] file of the walk: each one is
    either written (one artifact) or reported (one error line). *)
Theorem process_vol_files_accounts (input_dir output_dir : string)
    (walk : list walk_entry) (tr : list (event F)) :
  exists evs,
    process_vol_files rnd f64_to_f32 sqrt32 fs_open fs_makedirs fs_write
      input_dir output_dir walk tr = (Ok tt, tr ++ evs)
    /\ (length (written_paths evs) + count_reports evs
        = length (matching_files ".vol" walk))%nat.
Proof.
  unfold process_vol_files, matching_files.
  destruct (for_each_accounts
              (fun entry : walk_entry =>
                 let (rel, files) := entry in
                 for_each (fun file =>
                   if endswith ".vol" file
                   then convert_vol_file rnd f64_to_f32 sqrt32 fs_open fs_makedirs
                          fs_write input_dir output_dir rel file
                   else ret tt) files)
              (fun entry : walk_entry => length (List.filter (endswith ".vol") (snd entry)))
              walk) with (tr := tr) as (evs & H & C).
  - intros [rel files] tr'. cbn [snd]. rewrite <- list_sum_filter.
    apply for_each_accounts. intros file tr''.
    destruct (endswith ".vol" file).
    + apply convert_vol_file_accounts.
    + exists []. rewrite app_nil_r. split; reflexivity.
  - exists evs. split; [exact H|]. rewrite C, length_concat, map_map. reflexivity.
Qed.

Lemma convert_reader_file_accounts lib_open input_dir output_dir rel file tr :
  is_ok (lib_open tr (path_join (walk_root input_dir rel) file)) = true ->
  exists evs,
    convert_reader_file px_to_f32 sqrt32 fs_makedirs fs_write lib_open
      input_dir output_dir rel file tr = (Ok tt, tr ++ evs)
    /\ (length (written_paths evs) + count_reports evs = 1)%nat.
Proof.
  intros Hok.
  destruct (convert_reader_file_outcome px_to_f32 sqrt32 fs_makedirs fs_write lib_open
              input_dir output_dir rel file tr)
    as [(e & He & _)|[(a & H)|(evs & e & H & Hw & Hc)]].
  - rewrite He in Hok. discriminate.
  - eexists. split; [exact H|]. reflexivity.
  - eexists. split; [exact H|].
    rewrite written_paths_app, count_reports_app, length_app, Hw, Hc.
    destruct (report_counts (F := F) (path_join (walk_root input_dir rel) file
                                      +:+ ": " +:+ exn_name e)) as [-> ->].
    reflexivity.
Qed.

(** When the reader can be built for every file, the reader-based
    converters complete too, and every file with the extension is either
    written or reported. *)
Theorem process_reader_files_accounts (ext : string)
    (lib_open : list (event F) -> string -> result (reader P))
    (input_dir output_dir : string) (walk : list walk_entry) (tr : list (event F)) :
  (forall tr' p, is_ok (lib_open tr' p) = true) ->
  exists evs,
    process_reader_files px_to_f32 sqrt32 fs_makedirs fs_write ext lib_open
      input_dir output_dir walk tr = (Ok tt, tr ++ evs)
    /\ (length (written_paths evs) + count_reports evs
        = length (matching_files ext walk))%nat.
Proof.
  intros Hopen. unfold process_reader_files, matching_files.
  destruct (for_each_accounts
              (fun entry : walk_entry =>
                 let (rel, files) := entry in
                 for_each (fun file =>
                   if endswith ext file
                   then convert_reader_file px_to_f32 sqrt32 fs_makedirs fs_write lib_open
                          input_dir output_dir rel file
                   else ret tt) files)
              (fun entry : walk_entry => length (List.filter (endswith ext) (snd entry)))
              walk) with (tr := tr) as (evs & H & C).
  - intros [rel files] tr'. cbn [snd]. rewrite <- list_sum_filter.
    apply for_each_accounts. intros file tr''.
    destruct (endswith ext file).
    + apply convert_reader_file_accounts, Hopen.
    + exists []. rewrite app_nil_r. split; reflexivity.
  - exists evs. split; [exact H|]. rewrite C, length_concat, map_map. reflexivity.
Qed.

Lemma for_each_skip {A} (body : A -> M unit) (l : list A) (tr : list (event F)) :
  (forall x tr', In x l -> body x tr' = (Ok tt, tr')) ->
  for_each body l tr = (Ok tt, tr).
Proof.
  induction l as [|x l IH]; intros H; [reflexivity|].
  cbn [for_each]. unfold bindM. rewrite (H x) by (left; reflexivity).
  apply IH. intros y tr' Hy. apply H. right. exact Hy.
Qed.

(** Files without the extension a converter looks for are not touched:
    a walk that holds none leaves the world as it was. *)
Theorem other_files_are_skipped (ext : string)
    (lib_open : list (event F) -> string -> result (reader P))
    (input_dir output_dir : string) (walk : list walk_entry) (tr : list (event F)) :
  (forall rel files file, In (rel, files) walk -> In file files ->
                          endswith ".vol" file = false /\ endswith ext file = false) ->
  process_vol_files rnd f64_to_f32 sqrt32 fs_open fs_makedirs fs_write
    input_dir output_dir walk tr = (Ok tt, tr)
  /\ process_reader_files px_to_f32 sqrt32 fs_makedirs fs_write ext lib_open
       input_dir output_dir walk tr = (Ok tt, tr).
Proof.
  intros H. split.
  - unfold process_vol_files. apply for_each_skip. intros [rel files] tr' Hin.
    apply for_each_skip.
    intros file tr'' Hf. destruct (H rel files file Hin Hf) as [-> _]. reflexivity.
  - unfold process_reader_files. apply for_each_skip. intros [rel files] tr' Hin.
    apply for_each_skip.
    intros file tr'' Hf. destruct (H rel files file Hin Hf) as [_ ->]. reflexivity.
Qed.

(** A [.vol] file that opens and decodes, in a world that lets the
    directory be made and the artifact be written, is converted: the run
    is the six events below, and the array written has the shape of the
    decoded volume and sqrt(sqrt(float32(v))) for each of its elements. *)
Theorem convert_vol_file_success (input_dir output_dir : string) (rel : list string)
    (file : string) (tr : list (event F)) (bytes : list byte) (vol : ndarray fval) :
  let p := path_join (walk_root input_dir rel) file in
  let d := path_join output_dir (relpath rel) in
  let t := path_join d (fst (splitext file) +:+ ".tiff") in
  let img := mkArray (shape vol)
               (map (fun v => sqrt32 (sqrt32 (f64_to_f32 v))) (data vol)) in
  let tr0 := tr ++ [EPrint ("Converting: " +:+ file)] in
  let tr1 := tr0 ++ [EOpen p; EClose p] in
  fs_open tr0 p = Ok bytes ->
  read_vol_file rnd bytes = Ok vol ->
  fs_makedirs tr1 d = Ok tt ->
  fs_write (tr1 ++ [EMakedirs d]) t img = Ok tt ->
  convert_vol_file rnd f64_to_f32 sqrt32 fs_open fs_makedirs fs_write
    input_dir output_dir rel file tr
  = (Ok tt, tr ++ [EPrint ("Converting: " +:+ file); EOpen p; EClose p;
                   EMakedirs d; EWrite t img; EPrint ("Saved: " +:+ t)]).
Proof.
  intros p d t img tr0 tr1 Hopen Hread Hmk Hwr.
  destruct (read_vol_file_inv rnd bytes vol Hread) as (h & _ & _ & _ & _ & Hs & _).
  unfold read_vol_file in Hread.
  destruct (read_bscans bytes) as [raw|] eqn:Er; [|discriminate]. cbn [bind] in Hread.
  unfold convert_vol_file, bindM, try_except, emit, read_vol_file_io, makedirs, imsave, lift.
  fold p d t. fold tr0. rewrite Hopen, Er, Hread.
  replace ((tr0 ++ [EOpen p]) ++ [EClose p]) with tr1
    by (unfold tr1; rewrite <- app_assoc; reflexivity).
  rewrite Hmk.
  assert (log_volume sqrt32 (astype f64_to_f32 vol) = Ok img) as ->.
  { rewrite log_volume_at_most_3 by (unfold ndim, astype; cbn [shape]; rewrite Hs; cbn; lia).
    unfold img, astype. cbn [shape data]. rewrite map_map. reflexivity. }
  rewrite Hwr. unfold tr1, tr0. rewrite <- !app_assoc. reflexivity.
Qed.

(** A reader that offers no slice: stacking raises ValueError, which the
    handler reports; nothing is created and nothing is written. *)
Theorem convert_reader_file_no_slice
    (lib_open : list (event F) -> string -> result (reader P))
    (input_dir output_dir : string) (rel : list string) (file : string)
    (tr : list (event F)) (img : reader P) :
  let p := path_join (walk_root input_dir rel) file in
  lib_open tr p = Ok img -> num_slices img = 0%nat ->
  convert_reader_file px_to_f32 sqrt32 fs_makedirs fs_write lib_open
    input_dir output_dir rel file tr
  = (Ok tt, tr ++ [EPrint ("Error processing " +:+ p +:+ ": ValueError")]).
Proof.
  intros p Hopen H0. unfold convert_reader_file, bindM, try_except, lift, emit.
  fold p. rewrite Hopen, H0. cbn [seq read_slices np_stack bind].
  rewrite drop_all. cbn [open_handles map]. rewrite app_nil_r. reflexivity.
Qed.

(** The reader-based loop stops at the first file whose reader cannot be
    built: the exception is the result of the whole run, and the files
    after it are not looked at. *)
Theorem process_reader_files_aborts (ext : string)
    (lib_open : list (event F) -> string -> result (reader P))
    (input_dir output_dir : string) (rel : list string) (file : string)
    (files : list string) (walk : list walk_entry) (tr : list (event F)) (e : exn) :
  endswith ext file = true ->
  lib_open tr (path_join (walk_root input_dir rel) file) = Raise e ->
  process_reader_files px_to_f32 sqrt32 fs_makedirs fs_write ext lib_open
    input_dir output_dir ((rel, file :: files) :: walk) tr
  = (Raise e, tr).
Proof.
  intros Hext Hopen. unfold process_reader_files. cbn [for_each]. unfold bindM at 1.
  unfold bindM at 1. rewrite Hext. unfold convert_reader_file. unfold bindM at 1.
  rewrite Hopen. reflexivity.
Qed.

End BatchAccounting.

Lemma process_reader_files_accounts_witness :
  exists evs,
    process_e2e_files (P := nat) erase (fun u : unit => u) demo_makedirs demo_write
      good_lib_open "in" "out" [([], ["x.e2e"; "notes.txt"; "y.e2e"])]%string []
    = (Ok tt, [] ++ evs)
    /\ (length (written_paths evs) + count_reports evs = 2)%nat.
Proof.
  apply (process_reader_files_accounts (P := nat) erase (fun u : unit => u)
           demo_makedirs demo_write ".e2e" good_lib_open "in" "out"
           [([], ["x.e2e"; "notes.txt"; "y.e2e"])]%string []).
  intros tr' p. reflexivity.
Defined.

Lemma other_files_are_skipped_witness :
  demo_process_vol_files "in" "out" [([], ["notes.txt"; "scan.tiff"])]%string []
  = (Ok tt, []).
Proof.
  apply (other_files_are_skipped (P := nat) (fun q : Q => q) erase erase
           (fun u : unit => u) demo_open demo_makedirs demo_write ".e2e" demo_lib_open
           "in" "out" [([], ["notes.txt"; "scan.tiff"])]%string []).
  intros rel files file [[= <- <-]|[]] Hf.
  destruct Hf as [<-|[<-|[]]]; split; reflexivity.
Defined.

Lemma convert_vol_file_success_witness :
  exists img,
    convert_vol_file (fun q : Q => q) (@erase fval) (fun u : unit => u)
      demo_open demo_makedirs demo_write "in" "out" [] "good.vol" []
    = (Ok tt, [EPrint "Converting: good.vol"; EOpen "in/good.vol"; EClose "in/good.vol";
               EMakedirs "out/."; EWrite "out/./good.tiff" img;
               EPrint "Saved: out/./good.tiff"])%string
    /\ shape img = [2; 3; 4]%nat.
Proof.
  destruct (read_vol_file (fun q : Q => q) example_file) as [vol|] eqn:E;
    [|vm_compute in E; discriminate].
  eexists. split.
  - apply (convert_vol_file_success (fun q : Q => q) (@erase fval) (fun u : unit => u)
             demo_open demo_makedirs demo_write "in" "out" [] "good.vol" []
             example_file vol); try reflexivity. exact E.
  - cbn [shape]. vm_compute in E. injection E as <-. reflexivity.
Defined.

Lemma convert_reader_file_no_slice_witness :
  convert_reader_file (P := nat) erase (fun u : unit => u) demo_makedirs demo_write
    empty_lib_open "in" "out" [] "empty.e2e" []
  = (Ok tt, [EPrint "Error processing in/empty.e2e: ValueError"])%string.
Proof.
  apply (convert_reader_file_no_slice (P := nat) erase (fun u : unit => u)
           demo_makedirs demo_write empty_lib_open "in" "out" [] "empty.e2e" []
           (mkReader 0 (fun i => Raise IndexError))); reflexivity.
Defined.

Lemma process_reader_files_aborts_witness :
  process_fda_files (P := nat) erase (fun u : unit => u) demo_makedirs demo_write
    demo_lib_open "in" "out" [([], ["bad.fda"; "good.fda"])]%string []
  = (Raise ExternalError, []).
Proof.
  apply (process_reader_files_aborts (P := nat) erase (fun u : unit => u)
           demo_makedirs demo_write ".fda" demo_lib_open "in" "out" [] "bad.fda"
           ["good.fda"]%string [] [] ExternalError); reflexivity.
Defined.
